(** * jiraDynamoDBService: the SQS-to-DynamoDB ingestion handler of [index.js]

    A shallow embedding of [src/index.js] (the batched version of the Lambda
    handler) and the properties of its parser, record builder, batch writer,
    fallback writer and handler.

    Conventions.
    - JavaScript strings are modelled by [string] over ASCII code units; the
      whitespace set of [trim] and the case mapping of [toLowerCase] are the
      ASCII parts of the ECMAScript ones.
    - Plain objects used as dictionaries ([fields], the DynamoDB item) are
      [gmap string _]; a property holding [undefined] is a key bound to
      [VUndefined].
    - Counters are [Z]; array lengths are [nat] and enter counters through
      [Z.of_nat].
    - The store, the clock, the timer and [JSON.parse] are the environment:
      they are fields of the [Runtime] class and every theorem holds for every
      instance. *)

From Stdlib Require Import ZArith Lia List String Ascii DecimalString DecimalN.
From stdpp Require Import base option list strings gmap.
From Equations Require Import Equations.

Set Warnings "-register-all".

(** ** Strings *)

Module JsString.

Definition LF : ascii := "010"%char.

(** The ASCII members of ECMAScript's WhiteSpace and LineTerminator. *)
Definition isWhiteSpace (c : ascii) : bool :=
  match nat_of_ascii c with
  | 9 | 10 | 11 | 12 | 13 | 32 => true
  | _ => false
  end.

Definition isUpper (c : ascii) : bool :=
  (65 <=? nat_of_ascii c) && (nat_of_ascii c <=? 90).

Definition lowerChar (c : ascii) : ascii :=
  if isUpper c then ascii_of_nat (nat_of_ascii c + 32) else c.

Fixpoint toLowerCase (s : string) : string :=
  match s with
  | EmptyString => EmptyString
  | String c r => String (lowerChar c) (toLowerCase r)
  end.

Fixpoint trimStart (s : string) : string :=
  match s with
  | EmptyString => EmptyString
  | String c r => if isWhiteSpace c then trimStart r else s
  end.

Fixpoint trimEnd (s : string) : string :=
  match s with
  | EmptyString => EmptyString
  | String c r =>
      match trimEnd r with
      | EmptyString => if isWhiteSpace c then EmptyString else String c EmptyString
      | r' => String c r'
      end
  end.

Definition trim (s : string) : string := trimEnd (trimStart s).

(** [s.indexOf(c)]: the index of the first occurrence, or [-1]. *)
Fixpoint indexOf (c : ascii) (s : string) : Z :=
  match s with
  | EmptyString => (-1)%Z
  | String d r =>
      if Ascii.eqb d c then 0%Z
      else let i := indexOf c r in if (i <? 0)%Z then (-1)%Z else (i + 1)%Z
  end.

Fixpoint take (n : nat) (s : string) : string :=
  match n, s with
  | S n', String c r => String c (take n' r)
  | _, _ => EmptyString
  end.

Fixpoint drop (n : nat) (s : string) : string :=
  match n, s with
  | S n', String _ r => drop n' r
  | _, _ => s
  end.

Definition clampIndex (i : Z) (s : string) : nat :=
  Nat.min (Z.to_nat i) (String.length s).

(** [s.substring(a, b)]: both indices are clamped to [0 .. length] and
    swapped when [a > b]. *)
Definition substring (a b : Z) (s : string) : string :=
  let a' := clampIndex a s in
  let b' := clampIndex b s in
  let lo := Nat.min a' b' in
  let hi := Nat.max a' b' in
  take (hi - lo) (drop lo s).

(** [s.substring(a)]. *)
Definition substringFrom (a : Z) (s : string) : string :=
  drop (clampIndex a s) s.

(** [s.split('\n')]: always at least one piece. *)
Fixpoint splitLines (s : string) : list string :=
  match s with
  | EmptyString => [EmptyString]
  | String c r =>
      if Ascii.eqb c LF then EmptyString :: splitLines r
      else match splitLines r with
           | h :: t => String c h :: t
           | [] => [String c EmptyString]
           end
  end.

(** Decimal rendering of a non-negative integer, as a template literal
    renders a number below 10^21. *)
Definition ofNumber (n : N) : string :=
  NilEmpty.string_of_uint (N.to_uint n).

Definition isDigit (c : ascii) : bool :=
  (48 <=? nat_of_ascii c) && (nat_of_ascii c <=? 57).

Fixpoint allDigits (s : string) : bool :=
  match s with
  | EmptyString => true
  | String c r => isDigit c && allDigits r
  end.

(** The pattern [<digits>]: one or more decimal digits. *)
Definition isDigits (s : string) : bool :=
  match s with
  | EmptyString => false
  | _ => allDigits s
  end.

End JsString.

(** ** Content Parser ([parseJiraContent], lines 18-56) *)

Abbreviation ParsedFields := (gmap string string).

(** [fields[key] = value] on an object literal.  [__proto__] is an accessor
    inherited from [Object.prototype] whose setter ignores a value that is
    neither an object nor [null]: assigning a string to it creates no
    property. Every other key becomes (or updates) an own property. *)
Definition setProperty (fields : ParsedFields) (key value : string) : ParsedFields :=
  if decide (key = "__proto__") then fields else <[key := value]> fields.

Definition lineKey (line : string) : string :=
  JsString.toLowerCase
    (JsString.trim (JsString.substring 0 (JsString.indexOf ":" line) line)).

Definition lineValue (line : string) : string :=
  JsString.trim (JsString.substringFrom (JsString.indexOf ":" line + 1)%Z line).

(** The body of the [for (const line of lines)] loop. *)
Definition parseLine (fields : ParsedFields) (line : string) : ParsedFields :=
  let colonIndex := JsString.indexOf ":" line in
  if (0 <? colonIndex)%Z then
    let key := lineKey line in
    let value := lineValue line in
    if decide (key = "key") then <["issueKey" := value]> fields
    else if decide (key = "summary") then <["summary" := value]> fields
    else if decide (key = "priority") then <["priority" := value]> fields
    else if decide (key = "creator") then <["creator" := value]> fields
    else if decide (key = "status") then <["status" := value]> fields
    else if decide (key = "assignee") then <["assignee" := value]> fields
    else setProperty fields key value
  else fields.

Definition parseJiraContent (content : string) : ParsedFields :=
  fold_left parseLine (JsString.splitLines content) ∅.

(** ** JavaScript values, errors and the environment *)

(** The values [JSON.parse] can return, and [undefined]. Numbers are the
    integral ones; no property below depends on a number's value. An
    object keeps its properties in source order. *)
Inductive JSValue : Type :=
| VUndefined
| VNull
| VBool (b : bool)
| VNumber (n : Z)
| VString (s : string)
| VArray (elems : list JSValue)
| VObject (props : list (string * JSValue)).

(** An [Error] instance: what [JSON.parse], a failed property access and
    the store client throw. Only its [message] is ever read. *)
Record Error : Type := mkError { message : string }.

(** A stored record: the object built by [createDynamoItem]. *)
Abbreviation Item := (gmap string JSValue).

Inductive WriteRequest : Type :=
| PutRequest (item : Item).

(** The two commands handed to [dynamoDB.send]; both carry the table name
    read from [process.env.DYNAMODB_TABLE]. *)
Inductive Command : Type :=
| BatchWriteCommand (table : string) (requests : list WriteRequest)
| PutCommand (table : string) (item : Item).

(** What awaiting [dynamoDB.send(command)] gives: a response, of which only
    [UnprocessedItems?.[table] || []] is read, or a thrown [Error]. *)
Inductive SendResult : Type :=
| Resolved (unprocessedItems : list WriteRequest)
| Rejected (error : Error).

(** What the environment sees of a run. *)
Inductive Event : Type :=
| EvSend (command : Command)
| EvSleep (ms : Z).

Class Runtime : Type := {
  World : Type;
  (** [dynamoDB.send(command)] *)
  send : Command -> World -> SendResult * World;
  (** [Date.now()] and [new Date()]: epoch milliseconds *)
  now : World -> N * World;
  (** [setTimeout(resolve, ms)] awaited *)
  sleep : Z -> World -> World;
  (** [Date.prototype.toISOString] *)
  toISOString : N -> string;
  (** [JSON.parse]: a value or a [SyntaxError] *)
  JSON_parse : string -> Error + JSValue;
  (** the [TypeError] of reading or calling property [name] of [v] *)
  typeError : JSValue -> string -> Error;
  (** [process.env.DYNAMODB_TABLE] *)
  DYNAMODB_TABLE : string
}.

(** Property lookup in a parsed object: of duplicate keys the last wins. *)
Fixpoint findLast (name : string) (props : list (string * JSValue)) : option JSValue :=
  match props with
  | [] => None
  | (k, v) :: rest =>
      match findLast name rest with
      | Some x => Some x
      | None => if String.eqb k name then Some v else None
      end
  end.

(** [v.name] for the names read by the handler ([content], [title]), which
    no prototype defines: reading them of [null] or [undefined] throws, of
    an object gives the own property, of anything else [undefined]. *)
Definition getProperty `{Runtime} (v : JSValue) (name : string) : Error + JSValue :=
  match v with
  | VUndefined | VNull => inl (typeError v name)
  | VObject props => inr (default VUndefined (findLast name props))
  | _ => inr VUndefined
  end.

Definition signedDecimal (n : Z) : string :=
  if (n <? 0)%Z then "-" +:+ JsString.ofNumber (Z.to_N (- n)) else JsString.ofNumber (Z.to_N n).

(** [String(v)], as a template literal applies it. *)
Fixpoint toString (v : JSValue) : string :=
  match v with
  | VUndefined => "undefined"
  | VNull => "null"
  | VBool true => "true"
  | VBool false => "false"
  | VNumber n => signedDecimal n
  | VString s => s
  | VArray elems =>
      String.concat ","
        (map (fun e => match e with
                       | VUndefined | VNull => ""
                       | _ => toString e
                       end) elems)
  | VObject _ => "[object Object]"
  end.

(** ** The effect monad: world passing with a log of events *)

Section Effects.
Context `{Runtime}.

Definition M (A : Type) : Type := World -> A * World * list Event.

Definition ret {A} (a : A) : M A := fun w => (a, w, []).

Definition bind {A B} (m : M A) (k : A -> M B) : M B :=
  fun w =>
    let '(a, w1, t1) := m w in
    let '(b, w2, t2) := k a w1 in
    (b, w2, t1 ++ t2).

Definition dynamoDB_send (c : Command) : M SendResult :=
  fun w => let '(r, w') := send c w in (r, w', [EvSend c]).

Definition setTimeout (ms : Z) : M unit :=
  fun w => (tt, sleep ms w, [EvSleep ms]).

Definition Date_now : M N :=
  fun w => let '(t, w') := now w in (t, w', []).

(** Sequencing of computations that may throw. *)
Definition bindE {A B} (m : M (Error + A)) (k : A -> M (Error + B)) : M (Error + B) :=
  bind m (fun r => match r with
                   | inl e => ret (inl e)
                   | inr a => k a
                   end).

(** [try { body } catch (error) { handler }] *)
Definition tryCatch {A} (body : M (Error + A)) (handler : Error -> M A) : M A :=
  bind body (fun r => match r with
                      | inl e => handler e
                      | inr a => ret a
                      end).

Definition value_of {A} (r : A * World * list Event) : A := r.1.1.
Definition world_of {A} (r : A * World * list Event) : World := r.1.2.
Definition trace_of {A} (r : A * World * list Event) : list Event := r.2.
End Effects.

Notation "'let*' x ':=' m 'in' k" := (bind m (fun x => k))
  (at level 10, x pattern, m at level 100, k at level 200, only parsing).
Notation "'let?' x ':=' m 'in' k" := (bindE m (fun x => k))
  (at level 10, x pattern, m at level 100, k at level 200, only parsing).

(** ** Record Builder ([createDynamoItem], lines 64-86) *)

(** The keys excluded from the spread of extension attributes. *)
Definition canonicalKeys : list string :=
  ["issueKey"; "summary"; "priority"; "creator"; "status"; "assignee"].

(** [parsedFields.name]: the string, or [undefined]. *)
Definition field (parsedFields : ParsedFields) (name : string) : JSValue :=
  from_option VString VUndefined (parsedFields !! name).

(** [Object.fromEntries(Object.entries(parsedFields).filter(...))] *)
Definition extensionAttributes (parsedFields : ParsedFields) : Item :=
  VString <$> filter (fun kv => kv.1 ∉ canonicalKeys) parsedFields.

(** The properties written before the spread. *)
Definition builderFields (issueId : string) (currentTimestamp : string)
    (title content : JSValue) (parsedFields : ParsedFields) : Item :=
  list_to_map
    [ ("issueId", VString issueId);
      ("timestamp", VString currentTimestamp);
      ("title", title);
      ("summary", field parsedFields "summary");
      ("priority", field parsedFields "priority");
      ("creator", field parsedFields "creator");
      ("status", field parsedFields "status");
      ("assignee", field parsedFields "assignee");
      ("content", content);
      ("lastUpdated", VString currentTimestamp);
      ("processedAt", VString currentTimestamp) ].

Section RecordBuilder.
Context `{Runtime}.

(** [parsedFields.issueKey || `unknown-${Date.now()}`]: the clock is read
    only when [issueKey] is falsy, that is [undefined] or the empty
    string. *)
Definition issueIdOf (parsedFields : ParsedFields) : M string :=
  match parsedFields !! "issueKey" with
  | Some (String c r) => ret (String c r)
  | _ => let* t := Date_now in ret ("unknown-" +:+ JsString.ofNumber t)
  end.

(** The spread comes last in the object literal, so an extension attribute
    replaces a property of the same name written before it. *)
Definition createDynamoItem (msg : JSValue) (parsedFields : ParsedFields) : M (Error + Item) :=
  let* t := Date_now in
  let currentTimestamp := toISOString t in
  let* issueId := issueIdOf parsedFields in
  match getProperty msg "title", getProperty msg "content" with
  | inr title, inr content =>
      ret (inr (extensionAttributes parsedFields
                  ∪ builderFields issueId currentTimestamp title content parsedFields))
  | inl e, _ => ret (inl e)
  | _, inl e => ret (inl e)
  end.
End RecordBuilder.

(** ** Arrays *)

(** The relative index of [Array.prototype.slice]: a negative index counts
    from the end, and the result is clamped to [0 .. len]. *)
Definition relativeIndex (i : Z) (len : nat) : nat :=
  if (i <? 0)%Z then Z.to_nat (Z.max (Z.of_nat len + i) 0)
  else Nat.min (Z.to_nat i) len.

(** [l.slice(start, final)] *)
Definition slice {A} (start final : Z) (l : list A) : list A :=
  let k := relativeIndex start (length l) in
  let f := relativeIndex final (length l) in
  take (f - k) (drop k l).

(** [l.slice(start)] *)
Definition sliceFrom {A} (start : Z) (l : list A) : list A :=
  drop (relativeIndex start (length l)) l.

(** ** Batch Writer ([batchWriteToDynamoDB], lines 93-155) *)

Definition MAX_BATCH_SIZE : nat := 25.
Definition MAX_RETRIES : nat := 3.

Record Results : Type := mkResults {
  successful : Z;
  failed : Z;
  errors : list string
}.

(** The tail of the [try] block (lines 138-145). *)
Definition recordOutcome (results : Results) (chunk : list Item)
    (unprocessedItems : list WriteRequest) : Results :=
  let processedCount := (Z.of_nat (length chunk) - Z.of_nat (length unprocessedItems))%Z in
  {| successful := successful results + processedCount;
     failed := failed results + Z.of_nat (length unprocessedItems);
     errors :=
       if (0 <? length unprocessedItems)%nat
       then errors results
              ++ [JsString.ofNumber (N.of_nat (length unprocessedItems))
                    +:+ " items failed after retries"]
       else errors results |}.

(** The [catch] block (lines 147-151). *)
Definition recordFailure (results : Results) (chunk : list Item) (error : Error) : Results :=
  {| successful := successful results;
     failed := failed results + Z.of_nat (length chunk);
     errors := errors results ++ [message error] |}.

Section BatchWriter.
Context `{Runtime}.

(** The [while] loop of lines 121-136; a throwing [send] leaves it. *)
Equations? retryLoop (unprocessedItems : list WriteRequest) (retryCount : nat)
    : M (Error + list WriteRequest) by wf (MAX_RETRIES - retryCount) lt :=
  retryLoop unprocessedItems retryCount with
    decide (0 < length unprocessedItems ∧ retryCount < MAX_RETRIES) := {
    | left _ =>
        let* _ := setTimeout (2 ^ Z.of_nat retryCount * 100)%Z in
        let* retryResponse :=
          dynamoDB_send (BatchWriteCommand DYNAMODB_TABLE unprocessedItems) in
        match retryResponse with
        | Rejected error => ret (inl error)
        | Resolved unprocessed => retryLoop unprocessed (S retryCount)
        end
    | right _ => ret (inr unprocessedItems) }.
Proof. unfold MAX_RETRIES in *. lia. Qed.

(** Lines 109-136: the first submission of a chunk and its retries, giving
    the items still unprocessed at the end or the error thrown. *)
Definition tryBlock (chunk : list Item) : M (Error + list WriteRequest) :=
  let putRequests := map PutRequest chunk in
  let* response := dynamoDB_send (BatchWriteCommand DYNAMODB_TABLE putRequests) in
  match response with
  | Rejected error => ret (inl error)
  | Resolved unprocessedItems => retryLoop unprocessedItems 0
  end.

(** The body of the [for] loop: one chunk. *)
Definition processChunk (chunk : list Item) (results : Results) : M Results :=
  tryCatch
    (let? unprocessedItems := tryBlock chunk in
     ret (inr (recordOutcome results chunk unprocessedItems)))
    (fun error => ret (recordFailure results chunk error)).

(** [for (let i = 0; i < items.length; i += MAX_BATCH_SIZE)], from [i]. *)
Equations? batchLoop (items : list Item) (i : nat) (results : Results)
    : M Results by wf (length items - i) lt :=
  batchLoop items i results with decide (i < length items) := {
    | left _ =>
        let chunk := slice (Z.of_nat i) (Z.of_nat (i + MAX_BATCH_SIZE)) items in
        let* results' := processChunk chunk results in
        batchLoop items (i + MAX_BATCH_SIZE) results'
    | right _ => ret results }.
Proof. unfold MAX_BATCH_SIZE. lia. Qed.

Definition batchWriteToDynamoDB (items : list Item) : M Results :=
  batchLoop items 0 {| successful := 0; failed := 0; errors := [] |}.
End BatchWriter.

(** ** Fallback Writer ([fallbackIndividualWrite], lines 162-197) *)

(** What the callback of [items.map] returns. *)
Record WriteResult : Type := mkWriteResult {
  success : bool;
  issueId : JSValue;
  error : option string
}.

(** An entry of [Promise.allSettled]. *)
Inductive Settled (A : Type) : Type :=
| Fulfilled (value : A)
| RejectedPromise (reason : string).
Arguments Fulfilled {A} value.
Arguments RejectedPromise {A} reason.

(** The callback of [writeResults.forEach] (lines 182-194). *)
Definition tally (results : Results) (result : Settled WriteResult) : Results :=
  match result with
  | Fulfilled value =>
      if success value then
        {| successful := successful results + 1;
           failed := failed results;
           errors := errors results |}
      else
        {| successful := successful results;
           failed := failed results + 1;
           errors := errors results
                       ++ [toString (issueId value) +:+ ": "
                             +:+ default "undefined" (error value)] |}
  | RejectedPromise reason =>
      {| successful := successful results;
         failed := failed results + 1;
         errors := errors results ++ ["Promise rejected: " +:+ reason] |}
  end.

Section FallbackWriter.
Context `{Runtime}.

(** The [async (item) => ...] callback: its [catch] returns a value, so
    the promise it yields is always fulfilled. *)
Definition writeItem (item : Item) : M (Settled WriteResult) :=
  let id := default VUndefined (item !! "issueId") in
  let* response := dynamoDB_send (PutCommand DYNAMODB_TABLE item) in
  match response with
  | Resolved _ => ret (Fulfilled {| success := true; issueId := id; error := None |})
  | Rejected e =>
      ret (Fulfilled {| success := false; issueId := id; error := Some (message e) |})
  end.

(** [items.map(f)] followed by [Promise.allSettled]: every callback runs
    up to its [send] in input order, and the results keep that order. *)
Fixpoint allSettled {A B} (f : A -> M (Settled B)) (l : list A) : M (list (Settled B)) :=
  match l with
  | [] => ret []
  | a :: rest =>
      let* r := f a in
      let* rs := allSettled f rest in
      ret (r :: rs)
  end.

Definition fallbackIndividualWrite (items : list Item) : M Results :=
  let* writeResults := allSettled writeItem items in
  ret (fold_left tally writeResults {| successful := 0; failed := 0; errors := [] |}).
End FallbackWriter.

(** ** Handler ([exports.handler], lines 202-286) *)

Record SQSRecord : Type := mkSQSRecord {
  messageId : string;
  body : string
}.

Record SQSEvent : Type := mkSQSEvent {
  Records : list SQSRecord
}.

(** An entry of [parseErrors]: [{ messageId, error }]. *)
Record ParseError : Type := mkParseError {
  failedMessageId : string;
  parseErrorMessage : string
}.

Record FinalResults : Type := mkFinalResults {
  totalProcessed : nat;
  batchResults : Results;
  (** [null] when the fallback did not run *)
  fallbackResults : option Results;
  (** [undefined] when there was no parse error *)
  parseErrors : option (list ParseError)
}.

(** The object handed to [JSON.stringify] for the response body. *)
Inductive ResponseBody : Type :=
| NoValidItems (errors : list ParseError)
| ProcessingComplete (results : FinalResults)
| ProcessingFailed (error : string).

Definition bodyMessage (b : ResponseBody) : string :=
  match b with
  | NoValidItems _ => "No valid items to process"
  | ProcessingComplete _ => "Processing complete"
  | ProcessingFailed _ => "Processing failed"
  end.

Record Response : Type := mkResponse {
  statusCode : Z;
  responseBody : ResponseBody
}.

(** A writer as the handler sees it: it gives results or throws. *)
Definition Writer `{Runtime} : Type := list Item -> M (Error + Results).

Section Handler.
Context `{Runtime}.

(** [parseJiraContent(message.content)]: [content.split] exists only when
    [content] is a string. *)
Definition parseContent (content : JSValue) : Error + ParsedFields :=
  match content with
  | VString s => inr (parseJiraContent s)
  | v => inl (typeError v "split")
  end.

(** The inner [try] block (lines 212-215). *)
Definition parseRecord (record : SQSRecord) : M (Error + Item) :=
  match JSON_parse (body record) with
  | inl e => ret (inl e)
  | inr msg =>
      match getProperty msg "content" with
      | inl e => ret (inl e)
      | inr content =>
          match parseContent content with
          | inl e => ret (inl e)
          | inr parsedFields => createDynamoItem msg parsedFields
          end
      end
  end.

(** The loop of lines 210-229, with the two arrays it fills. *)
Fixpoint parseRecords (records : list SQSRecord) (items : list Item)
    (errs : list ParseError) : M (list Item * list ParseError) :=
  match records with
  | [] => ret (items, errs)
  | record :: rest =>
      let* r := parseRecord record in
      match r with
      | inr item => parseRecords rest (items ++ [item]) errs
      | inl parseError =>
          parseRecords rest items
            (errs ++ [{| failedMessageId := messageId record;
                         parseErrorMessage := message parseError |}])
      end
  end.

(** The outer [try] block, over the two writers it calls. *)
Definition handlerBody (batchWrite fallbackWrite : Writer) (event : SQSEvent)
    : M (Error + Response) :=
  let* (items, errs) := parseRecords (Records event) [] [] in
  if (length items =? 0)%nat then
    ret (inr {| statusCode := 400; responseBody := NoValidItems errs |})
  else
    let? batch := batchWrite items in
    let? fallback :=
      (if (0 <? failed batch)%Z then
         let failedItems := sliceFrom (- failed batch) items in
         let? r := fallbackWrite failedItems in
         ret (inr (Some r))
       else ret (inr None)) in
    let finalResults :=
      {| totalProcessed := length items;
         batchResults := batch;
         fallbackResults := fallback;
         parseErrors := if (0 <? length errs)%nat then Some errs else None |} in
    ret (inr {| statusCode := 200; responseBody := ProcessingComplete finalResults |}).

(** The handler with its top-level [catch] (lines 270-285). *)
Definition handlerWith (batchWrite fallbackWrite : Writer) (event : SQSEvent) : M Response :=
  tryCatch (handlerBody batchWrite fallbackWrite event)
    (fun e => ret {| statusCode := 500; responseBody := ProcessingFailed (message e) |}).

(** A function whose own [try]/[catch] lets nothing escape. *)
Definition returning {A B} (f : A -> M B) : A -> M (Error + B) :=
  fun a => let* b := f a in ret (inr b).

Definition handler : SQSEvent -> M Response :=
  handlerWith (returning batchWriteToDynamoDB) (returning fallbackIndividualWrite).
End Handler.

(** ** The handler on an arbitrary event ([exports.handler], lines 202-286)

    The event is any value the runtime can hand over: [event.Records] may be
    missing or may not be a list, and a record may be [null]. The store
    still answers as above. *)

(** An SQS record and an SQS event as the values the handler receives. *)
Definition recordValue (record : SQSRecord) : JSValue :=
  VObject [("messageId", VString (messageId record)); ("body", VString (body record))].



Module Raw.

(** An entry of [parseErrors]: [{ messageId: record.messageId, error }]. *)
Record ParseError : Type := mkParseError {
  messageId : JSValue;
  error : string
}.

Record FinalResults : Type := mkFinalResults {
  totalProcessed : nat;
  batchResults : Results;
  fallbackResults : option Results;
  parseErrors : option (list ParseError)
}.

Inductive ResponseBody : Type :=
| NoValidItems (errs : list ParseError)
| ProcessingComplete (results : FinalResults)
| ProcessingFailed (reason : string).

Record Response : Type := mkResponse {
  statusCode : Z;
  responseBody : ResponseBody
}.

Section RawHandler.
Context `{Runtime}.

(** [v.length], read by the log line before the [try] (line 203): it throws
    exactly when [v] is [null] or [undefined]. *)
Definition readLength (v : JSValue) : Error + JSValue :=
  match v with
  | VUndefined | VNull => inl (typeError v "length")
  | VArray elems => inr (VNumber (Z.of_nat (length elems)))
  | VString s => inr (VNumber (Z.of_nat (String.length s)))
  | VObject props => inr (default VUndefined (findLast "length" props))
  | _ => inr VUndefined
  end.

(** [for (const record of v)]: the values visited. An array gives its
    elements and a string its characters; nothing else that [JSON.parse]
    returns is iterable. *)
Definition iterate (v : JSValue) : Error + list JSValue :=
  match v with
  | VArray elems => inr elems
  | VString s => inr ((λ c, VString (String c EmptyString)) <$> list_ascii_of_string s)
  | _ => inl (typeError v "Symbol.iterator")
  end.

(** The inner [try] block (lines 212-215); [JSON.parse] applies [String] to
    its argument. *)
Definition parseRecord (record : JSValue) : M (Error + Item) :=
  match getProperty record "body" with
  | inl e => ret (inl e)
  | inr text =>
      match JSON_parse (toString text) with
      | inl e => ret (inl e)
      | inr msg =>
          match getProperty msg "content" with
          | inl e => ret (inl e)
          | inr content =>
              match parseContent content with
              | inl e => ret (inl e)
              | inr parsedFields => createDynamoItem msg parsedFields
              end
          end
      end
  end.

(** The loop of lines 210-229. The inner [catch] reads [record.messageId],
    which throws in its turn when the record is [null] or [undefined]: that
    error leaves the loop. *)
Fixpoint parseRecords (records : list JSValue) (items : list Item)
    (errs : list ParseError) : M (Error + list Item * list ParseError) :=
  match records with
  | [] => ret (inr (items, errs))
  | record :: rest =>
      let* r := parseRecord record in
      match r with
      | inr item => parseRecords rest (items ++ [item]) errs
      | inl parseError =>
          match getProperty record "messageId" with
          | inl e => ret (inl e)
          | inr id =>
              parseRecords rest items
                (errs ++ [{| messageId := id; error := message parseError |}])
          end
      end
  end.

(** The outer [try] block (lines 205-268). *)
Definition handlerBody (event : JSValue) : M (Error + Response) :=
  match getProperty event "Records" with
  | inl e => ret (inl e)
  | inr records =>
      match iterate records with
      | inl e => ret (inl e)
      | inr elems =>
          let? (items, errs) := parseRecords elems [] [] in
          if (length items =? 0)%nat then
            ret (inr {| statusCode := 400; responseBody := NoValidItems errs |})
          else
            let* batch := batchWriteToDynamoDB items in
            let* fallback :=
              (if (0 <? failed batch)%Z then
                 let* r := fallbackIndividualWrite (sliceFrom (- failed batch) items) in
                 ret (Some r)
               else ret None) in
            ret (inr {| statusCode := 200;
                        responseBody :=
                          ProcessingComplete
                            {| totalProcessed := length items;
                               batchResults := batch;
                               fallbackResults := fallback;
                               parseErrors :=
                                 if (0 <? length errs)%nat then Some errs else None |} |})
      end
  end.

(** The whole handler: the log line of line 203, which reads
    [event.Records.length] before the [try], then the [try] with its
    [catch] (lines 270-285). [inl] is a rejected promise: the exception
    reaches the caller. *)
Definition handler (event : JSValue) : M (Error + Response) :=
  match getProperty event "Records" with
  | inl e => ret (inl e)
  | inr records =>
      match readLength records with
      | inl e => ret (inl e)
      | inr _ =>
          let* response :=
            tryCatch (handlerBody event)
              (λ e, ret {| statusCode := 500;
                           responseBody := ProcessingFailed (message e) |}) in
          ret (inr response)
      end
  end.
End RawHandler.


End Raw.




(** * Vocabulary of the statements *)

(** ** Strings and the parser *)

(** A string that does not start with white space. *)
Definition startsClean (s : string) : Prop :=
  match s with
  | EmptyString => True
  | String c _ => JsString.isWhiteSpace c = false
  end.

(** A line the parser reads: its first colon is at an index above 0. *)
Definition wellFormed (line : string) : bool :=
  (0 <? JsString.indexOf ":" line)%Z.

(** The attribute a normalised key is stored under: the [switch]. *)
Definition slotOf (key : string) : string :=
  if decide (key = "key") then "issueKey" else key.

Definition wellFormedLines (content : string) : list string :=
  List.filter wellFormed (JsString.splitLines content).

Definition hasUpper (s : string) : bool :=
  existsb JsString.isUpper (list_ascii_of_string s).

(** ** Traces of the Batch Writer *)

(** The commands of a trace that were not sent right after a wait: the
    first submission of each group (a retry is always sent after its
    backoff wait). *)
Fixpoint submissions (t : list Event) : list Command :=
  match t with
  | [] => []
  | EvSend c :: rest => c :: submissions rest
  | EvSleep _ :: EvSend _ :: rest => submissions rest
  | EvSleep _ :: rest => submissions rest
  end.

(** The waits of a trace, in order. *)
Definition delays (t : list Event) : list Z :=
  omap (fun ev => match ev with EvSleep ms => Some ms | EvSend _ => None end) t.

(** [ceil(n / d)] *)
Definition ceilDiv (n d : nat) : nat := (n + d - 1) / d.

(** The trace of a sequence of retries: a wait, then a command. *)
Definition retryEvents (l : list (Z * Command)) : list Event :=
  flat_map (fun p => [EvSleep p.1; EvSend p.2]) l.

(** The relation the specification draws for the retries of one group:
    while the unprocessed list is non-empty and the attempt counter is
    below the ceiling, wait [2^attempt * 100], resubmit only the
    unprocessed items, take what the store returns as the new unprocessed
    list and count the attempt; a throwing submission ends the group. *)
Inductive RetrySpec `{Runtime} :
    nat → list WriteRequest → World →
    (Error + list WriteRequest) * World * list Event → Prop :=
| retry_stop attempt unprocessed w :
    unprocessed = [] ∨ MAX_RETRIES ≤ attempt →
    RetrySpec attempt unprocessed w (inr unprocessed, w, [])
| retry_resubmit attempt unprocessed w returned w' out w'' t :
    unprocessed ≠ [] → attempt < MAX_RETRIES →
    send (BatchWriteCommand DYNAMODB_TABLE unprocessed)
      (sleep (2 ^ Z.of_nat attempt * 100)%Z w) = (Resolved returned, w') →
    RetrySpec (S attempt) returned w' (out, w'', t) →
    RetrySpec attempt unprocessed w
      (out, w'',
       EvSleep (2 ^ Z.of_nat attempt * 100)%Z
         :: EvSend (BatchWriteCommand DYNAMODB_TABLE unprocessed) :: t)
| retry_throw attempt unprocessed w e w' :
    unprocessed ≠ [] → attempt < MAX_RETRIES →
    send (BatchWriteCommand DYNAMODB_TABLE unprocessed)
      (sleep (2 ^ Z.of_nat attempt * 100)%Z w) = (Rejected e, w') →
    RetrySpec attempt unprocessed w
      (inl e, w',
       [EvSleep (2 ^ Z.of_nat attempt * 100)%Z;
        EvSend (BatchWriteCommand DYNAMODB_TABLE unprocessed)]).

(** ** Outcomes of the Fallback Writer *)

(** The store's answers to the single-item puts of a list of records, in
    the order the puts are issued. *)
Fixpoint putOutcomes `{Runtime} (items : list Item) (w : World) : list SendResult :=
  match items with
  | [] => []
  | item :: rest =>
      (send (PutCommand DYNAMODB_TABLE item) w).1
        :: putOutcomes rest (send (PutCommand DYNAMODB_TABLE item) w).2
  end.

(** The write result of one record, from that record and the store's answer
    to its own put. *)
Definition settle (item : Item) (outcome : SendResult) : Settled WriteResult :=
  Fulfilled
    {| success := match outcome with Resolved _ => true | Rejected _ => false end;
       issueId := default VUndefined (item !! "issueId");
       error := match outcome with Resolved _ => None | Rejected e => Some (message e) end |}.

Definition isRejected (outcome : SendResult) : bool :=
  match outcome with Resolved _ => false | Rejected _ => true end.

(** The error entry of a failed put: the record's [issueId], then the
    message. *)
Definition failureEntry (item : Item) (outcome : SendResult) : option string :=
  match outcome with
  | Resolved _ => None
  | Rejected e =>
      Some (toString (default VUndefined (item !! "issueId")) +:+ ": " +:+ message e)
  end.

(** ** Parse outcomes of the handler *)

(** The error of the inner [try] block for one record, if it throws:
    [JSON.parse] fails, or the message is [null], or its [content] is not a
    string. *)
Definition parseFailure `{Runtime} (record : SQSRecord) : option Error :=
  match JSON_parse (body record) with
  | inl e => Some e
  | inr msg =>
      match getProperty msg "content" with
      | inl e => Some e
      | inr content =>
          match parseContent content with
          | inl e => Some e
          | inr _ => None
          end
      end
  end.

Definition parseErrorOf `{Runtime} (record : SQSRecord) : option ParseError :=
  (λ e, {| failedMessageId := messageId record; parseErrorMessage := message e |})
    <$> parseFailure record.

Definition parses `{Runtime} (record : SQSRecord) : bool :=
  match parseFailure record with Some _ => false | None => true end.

(** ** Example environments *)

Module Examples.
Definition dq : string := String "034" "".
Definition quoted (s : string) : string := dq +:+ s +:+ dq.

(** The JSON text of [{ title, content }]. *)
Definition envelope (title content : string) : string :=
  "{" +:+ quoted "title" +:+ ":" +:+ quoted title +:+ ","
      +:+ quoted "content" +:+ ":" +:+ quoted content +:+ "}".

Definition instant : N := 1700000000000.

(** An environment whose store answers from a script indexed by the number
    of commands sent so far, whose clock stands at [instant], and whose
    [JSON.parse] knows the texts of [table]. *)
Definition scripted (script : nat → Command → SendResult)
    (table : list (string * JSValue)) : Runtime :=
  {| World := nat;
     send := fun c w => (script w c, S w);
     now := fun w => (instant, w);
     sleep := fun _ w => w;
     toISOString := fun _ => "2023-11-14T22:13:20.000Z";
     JSON_parse := fun text =>
       match list_find (fun kv => kv.1 = text) table with
       | Some (_, kv) => inr kv.2
       | None => inl (mkError "Unexpected token in JSON")
       end;
     typeError := fun _ name => mkError ("Cannot read property " +:+ name);
     DYNAMODB_TABLE := "jira-issues" |}.

(** The store that accepts everything. *)
Definition accepting : Runtime := scripted (fun _ _ => Resolved []) [].
End Examples.

(** Inputs of the worked examples. *)
Module Witnesses.
Import Examples.

Definition record (id : string) : Item := {[ "issueId" := VString id ]}.

Definition two : list WriteRequest :=
  [PutRequest (record "A-4"); PutRequest (record "A-5")].

(** The store that returns the same two unprocessed items to every
    command. *)
Definition rejectingTwo : Runtime := scripted (λ _ _, Resolved two) [].

(** The store whose first command throws. *)
Definition throwingFirst : Runtime :=
  scripted (λ n _, if decide (n = 0) then Rejected (mkError "boom") else Resolved []) [].

Definition five : list Item :=
  [record "A-1"; record "A-2"; record "A-3"; record "A-4"; record "A-5"].

Definition ticket : string := envelope "Outage" "Key: TEST-4".

Definition ticketValue : JSValue :=
  VObject [("title", VString "Outage"); ("content", VString "Key: TEST-4")].

(** The store that keeps one item of every batch unprocessed and accepts
    every single put. *)
Definition keepingOne : Runtime :=
  scripted (λ _ _, Resolved [PutRequest (record "TEST-4")]) [(ticket, ticketValue)].

Definition parsing : Runtime := scripted (λ _ _, Resolved []) [(ticket, ticketValue)].
End Witnesses.

(** ** The sentences of the specification that the code does not satisfy *)

(** C8, as the specification words it: N well-formed lines give exactly N
    attributes. *)
Definition one_attribute_per_line : Prop :=
  ∀ content : string,
    size (parseJiraContent content) = length (wellFormedLines content).

(** C3, as the specification words it, for the three record fields it
    names: whatever the parsed fields are, the record keeps the message's
    title and content and the builder's timestamp. *)
Definition canonical_fields_win : Prop :=
  ∀ (R : Runtime) (msg : JSValue) (fields : ParsedFields) (w : World)
    (item : Item) (title content : JSValue),
    getProperty msg "title" = inr title →
    getProperty msg "content" = inr content →
    value_of (createDynamoItem msg fields w) = inr item →
    item !! "title" = Some title
    ∧ item !! "content" = Some content
    ∧ item !! "timestamp" = Some (VString (toISOString (now w).1)).

(** C7, as the specification words it: [issueId] is [unknown-<digits>] when
    the parsed [issueKey] is absent, and the parsed [issueKey] otherwise. *)
Definition issueId_is_issueKey_unless_absent : Prop :=
  ∀ (R : Runtime) (msg : JSValue) (text : string) (w : World) (item : Item),
    value_of (createDynamoItem msg (parseJiraContent text) w) = inr item →
    match parseJiraContent text !! "issueKey" with
    | None => ∃ digits, JsString.isDigits digits = true
                        ∧ item !! "issueId" = Some (VString ("unknown-" +:+ digits))
    | Some issueKey => item !! "issueId" = Some (VString issueKey)
    end.

(** ** Vocabulary of the further properties *)

(** The names of the properties [createDynamoItem] writes before the
    spread. *)
Definition builderKeys : list string :=
  ["issueId"; "timestamp"; "title"; "summary"; "priority"; "creator"; "status";
   "assignee"; "content"; "lastUpdated"; "processedAt"].

(** The commands of a trace, waits left out. *)
Definition sends (t : list Event) : list Command :=
  omap (fun ev => match ev with EvSend c => Some c | EvSleep _ => None end) t.

(** The sum of the waits of a trace. *)
Definition totalDelay (t : list Event) : Z := foldr Z.add 0%Z (delays t).

(** A store that returns as unprocessed at most as many items as a batch
    request carried. *)
Definition returnsNoMoreThanSent `{Runtime} : Prop :=
  ∀ table requests w unprocessed,
    (send (BatchWriteCommand table requests) w).1 = Resolved unprocessed →
    length unprocessed ≤ length requests.

(** A store that resolves every command with nothing left unprocessed. *)
Definition acceptsEverything `{Runtime} : Prop :=
  ∀ c w, (send c w).1 = Resolved [].

Module MoreExamples.
(** The store that returns the first item of every batch as unprocessed
    and accepts every single put. *)
Definition keepingFirst : Runtime :=
  Examples.scripted
    (λ _ c, match c with
            | BatchWriteCommand _ requests => Resolved (take 1 requests)
            | PutCommand _ _ => Resolved []
            end) [].
End MoreExamples.

(** * Properties *)

(** ** Strings *)

Module JsStringFacts.
Import JsString.

Lemma lowerChar_not_upper c : isUpper (lowerChar c) = false.
Proof. destruct c as [[] [] [] [] [] [] [] []]; reflexivity. Qed.

Lemma lowerChar_idem c : lowerChar (lowerChar c) = lowerChar c.
Proof. unfold lowerChar at 1. by rewrite lowerChar_not_upper. Qed.

Lemma toLowerCase_idem s : toLowerCase (toLowerCase s) = toLowerCase s.
Proof. induction s as [|c r IH]; simpl; [done|]. by rewrite lowerChar_idem, IH. Qed.

(** No lower-cased string contains the capital of [issueKey]. *)
Lemma toLowerCase_not_issueKey s : toLowerCase s ≠ "issueKey".
Proof.
  intros Heq.
  do 5 (destruct s as [|? s]; [discriminate|]; simpl in Heq;
        injection Heq as _ Heq).
  destruct s as [|c s]; [discriminate|]. simpl in Heq. injection Heq as Hc _.
  pose proof (lowerChar_not_upper c) as Hu. rewrite Hc in Hu. discriminate.
Qed.

Lemma trimStart_clean s : startsClean (trimStart s).
Proof.
  induction s as [|c r IH]; simpl; [done|].
  destruct (isWhiteSpace c) eqn:Hc; [done|]. simpl. done.
Qed.

Lemma trimStart_of_clean s : startsClean s → trimStart s = s.
Proof. destruct s as [|c r]; simpl; [done|]. by intros ->. Qed.

Lemma trimEnd_clean s : startsClean s → startsClean (trimEnd s).
Proof.
  destruct s as [|c r]; simpl; [done|]. intros Hc.
  destruct (trimEnd r); simpl; by rewrite ?Hc.
Qed.

Lemma trimEnd_cons c r :
  trimEnd (String c r) =
  match trimEnd r with
  | EmptyString => if isWhiteSpace c then EmptyString else String c EmptyString
  | r' => String c r'
  end.
Proof. reflexivity. Qed.

Lemma trimEnd_idem s : trimEnd (trimEnd s) = trimEnd s.
Proof.
  induction s as [|c r IH]; [done|].
  rewrite (trimEnd_cons c r).
  destruct (trimEnd r) as [|d r'] eqn:Hr.
  - destruct (isWhiteSpace c) eqn:Hc; simpl; [done|]. by rewrite Hc.
  - by rewrite trimEnd_cons, IH.
Qed.

Lemma trim_idem s : trim (trim s) = trim s.
Proof.
  unfold trim.
  rewrite (trimStart_of_clean (trimEnd (trimStart s))).
  - apply trimEnd_idem.
  - apply trimEnd_clean, trimStart_clean.
Qed.

Lemma indexOf_ge c s : (-1 ≤ indexOf c s)%Z.
Proof.
  induction s as [|d r IH]; simpl; [lia|].
  destruct (Ascii.eqb d c); [lia|]. destruct (Z.ltb_spec (indexOf c r) 0); lia.
Qed.

Lemma indexOf_app_absent c k v :
  indexOf c k = (-1)%Z →
  indexOf c (k +:+ String c v) = Z.of_nat (String.length k).
Proof.
  induction k as [|d r IH]; simpl.
  - intros _. by rewrite Ascii.eqb_refl.
  - destruct (Ascii.eqb d c); [discriminate|].
    destruct (Z.ltb_spec (indexOf c r) 0) as [Hlt|Hge]; [|lia].
    intros _. pose proof (indexOf_ge c r). rewrite IH by lia.
    destruct (Z.ltb_spec (Z.of_nat (String.length r)) 0); lia.
Qed.

Lemma take_app_length k v : take (String.length k) (k +:+ v) = k.
Proof. induction k as [|d r IH]; simpl; [by destruct v|]. by rewrite IH. Qed.

Lemma drop_app_length k v : drop (String.length k) (k +:+ v) = v.
Proof. induction k as [|d r IH]; simpl; [by destruct v|]. done. Qed.

Lemma length_app k v : String.length (k +:+ v) = String.length k + String.length v.
Proof. induction k as [|d r IH]; simpl; [done|]. by rewrite IH. Qed.

Lemma splitLines_nonempty s : splitLines s ≠ [].
Proof.
  destruct s as [|c r]; simpl; [done|].
  destruct (Ascii.eqb c LF); [done|]. by destruct (splitLines r).
Qed.

Lemma string_of_uint_digits d : allDigits (NilEmpty.string_of_uint d) = true.
Proof. induction d; simpl; done. Qed.

Lemma to_uint_not_Nil n : N.to_uint n ≠ Decimal.Nil.
Proof.
  intros Hn. pose proof (DecimalN.Unsigned.of_to n) as Hof.
  rewrite Hn in Hof. simpl in Hof. subst n. discriminate.
Qed.

(** A rendered number is one or more digits. *)
Lemma ofNumber_isDigits n : isDigits (ofNumber n) = true.
Proof.
  unfold ofNumber, isDigits.
  pose proof (string_of_uint_digits (N.to_uint n)) as Hd.
  pose proof (to_uint_not_Nil n) as Hn.
  destruct (N.to_uint n); simpl in *; done.
Qed.
End JsStringFacts.

(** ** Content Parser *)

Section ParserFacts.
Import JsString JsStringFacts.

Lemma parseLine_unfold (fields : ParsedFields) line :
  parseLine fields line =
  if wellFormed line then
    if decide (lineKey line = "__proto__") then fields
    else <[slotOf (lineKey line) := lineValue line]> fields
  else fields.
Proof.
  unfold parseLine, wellFormed, slotOf, setProperty.
  destruct (0 <? indexOf ":" line)%Z; [|done].
  generalize (lineKey line) as key. intros key.
  repeat case_decide; subst; first [reflexivity | discriminate | congruence].
Qed.

Lemma lineKey_not_issueKey line : lineKey line ≠ "issueKey".
Proof. apply toLowerCase_not_issueKey. Qed.

Lemma slotOf_lineKey_inj a b :
  slotOf (lineKey a) = slotOf (lineKey b) → lineKey a = lineKey b.
Proof.
  unfold slotOf. pose proof (lineKey_not_issueKey a). pose proof (lineKey_not_issueKey b).
  repeat case_decide; congruence.
Qed.

Lemma parseLine_size (fields : ParsedFields) line :
  size (parseLine fields line) ≤ size fields + (if wellFormed line then 1 else 0).
Proof.
  rewrite parseLine_unfold. destruct (wellFormed line); [|lia].
  case_decide; [lia|]. rewrite map_size_insert.
  destruct (fields !! _); simpl; unfold id; lia.
Qed.

Lemma parse_fold_size lines (fields : ParsedFields) :
  size (fold_left parseLine lines fields)
  ≤ size fields + length (List.filter wellFormed lines).
Proof.
  revert fields. induction lines as [|l rest IH]; intros fields; simpl; [lia|].
  specialize (IH (parseLine fields l)). pose proof (parseLine_size fields l).
  destruct (wellFormed l); simpl; lia.
Qed.

Lemma parse_fold_skip lines (fields : ParsedFields) :
  fold_left parseLine lines fields
  = fold_left parseLine (List.filter wellFormed lines) fields.
Proof.
  revert fields. induction lines as [|l rest IH]; intros fields; simpl; [done|].
  destruct (wellFormed l) eqn:Hl; simpl; [apply IH|].
  rewrite parseLine_unfold, Hl. apply IH.
Qed.

Lemma parse_fold_lookup lines (fields : ParsedFields) k v :
  fold_left parseLine lines fields !! k = Some v →
  fields !! k = Some v
  ∨ ∃ line, line ∈ List.filter wellFormed lines
            ∧ k = slotOf (lineKey line) ∧ v = lineValue line.
Proof.
  revert fields. induction lines as [|l rest IH]; intros fields; simpl; [by left|].
  intros Hk. apply IH in Hk. rewrite parseLine_unfold in Hk.
  destruct (wellFormed l) eqn:Hl.
  - destruct Hk as [Hk|(line & Hin & ? & ?)].
    + case_decide; [by left|].
      rewrite lookup_insert in Hk. case_decide; [|by left].
      injection Hk as <-. subst k. right. exists l. split; [left|done].
    + right. exists line. split; [by right|done].
  - destruct Hk as [Hk|(line & Hin & ? & ?)]; [by left|].
    right. by exists line.
Qed.

Lemma parse_fold_keeps lines (fields : ParsedFields) k :
  is_Some (fields !! k) → is_Some (fold_left parseLine lines fields !! k).
Proof.
  revert fields. induction lines as [|l rest IH]; intros fields; simpl; [done|].
  intros Hk. apply IH. rewrite parseLine_unfold.
  destruct (wellFormed l); [|done]. case_decide; [done|].
  rewrite lookup_insert. by case_decide.
Qed.

Lemma parse_fold_present lines (fields : ParsedFields) line :
  line ∈ List.filter wellFormed lines → lineKey line ≠ "__proto__" →
  is_Some (fold_left parseLine lines fields !! slotOf (lineKey line)).
Proof.
  revert fields. induction lines as [|l rest IH]; intros fields; simpl.
  - by intros ?%elem_of_nil.
  - destruct (wellFormed l) eqn:Hl.
    + intros [->|Hin]%elem_of_cons Hp; [|by apply IH].
      apply parse_fold_keeps. rewrite parseLine_unfold, Hl.
      rewrite decide_False by done. rewrite lookup_insert_eq. by eexists.
    + intros Hin Hp. by apply IH.
Qed.

Lemma parse_fold_size_exact lines (fields : ParsedFields) :
  NoDup (lineKey <$> List.filter wellFormed lines) →
  Forall (λ line, lineKey line ≠ "__proto__" ∧ fields !! slotOf (lineKey line) = None)
    (List.filter wellFormed lines) →
  size (fold_left parseLine lines fields)
  = size fields + length (List.filter wellFormed lines).
Proof.
  revert fields. induction lines as [|l rest IH]; intros fields; simpl; [lia|].
  rewrite parseLine_unfold. destruct (wellFormed l) eqn:Hl; [|apply IH].
  rewrite fmap_cons. intros [Hnotin Hnd]%NoDup_cons [[Hp Hfresh] Hall]%Forall_cons.
  rewrite decide_False by done. rewrite IH; [| done |].
  - rewrite map_size_insert_None by done. simpl. lia.
  - apply Forall_forall. intros line Hin.
    rewrite Forall_forall in Hall. destruct (Hall line Hin) as [Hp' Hf'].
    split; [done|]. rewrite lookup_insert_ne; [done|].
    intros Heq%slotOf_lineKey_inj. apply Hnotin. rewrite Heq.
    by apply list_elem_of_fmap_2.
Qed.

Lemma isWhiteSpace_lowerChar c : isWhiteSpace (lowerChar c) = isWhiteSpace c.
Proof. destruct c as [[] [] [] [] [] [] [] []]; reflexivity. Qed.

Lemma trimStart_toLowerCase s : trimStart (toLowerCase s) = toLowerCase (trimStart s).
Proof.
  induction s as [|c r IH]; simpl; [done|].
  rewrite isWhiteSpace_lowerChar. by destruct (isWhiteSpace c).
Qed.

Lemma trimEnd_toLowerCase s : trimEnd (toLowerCase s) = toLowerCase (trimEnd s).
Proof.
  induction s as [|c r IH]; [done|].
  change (toLowerCase (String c r)) with (String (lowerChar c) (toLowerCase r)).
  rewrite !trimEnd_cons, IH, isWhiteSpace_lowerChar.
  destruct (trimEnd r); simpl; [by destruct (isWhiteSpace c)|done].
Qed.

Lemma trim_toLowerCase s : trim (toLowerCase s) = toLowerCase (trim s).
Proof. unfold trim. by rewrite trimStart_toLowerCase, trimEnd_toLowerCase. Qed.

(** The line [key:value] for a non-empty key text without a colon. *)
Lemma keyValue_line key value :
  key ≠ "" → indexOf ":" key = (-1)%Z →
  wellFormed (key +:+ String ":" value) = true
  ∧ lineKey (key +:+ String ":" value) = toLowerCase (trim key)
  ∧ lineValue (key +:+ String ":" value) = trim value.
Proof.
  intros Hne Hcolon. unfold wellFormed, lineKey, lineValue.
  rewrite (indexOf_app_absent _ _ _ Hcolon).
  assert (0 < String.length key) as Hlen by (destruct key; [done|simpl; lia]).
  split; [apply Z.ltb_lt; lia|]. split.
  - unfold substring, clampIndex. rewrite Nat2Z.id, length_app. simpl.
    rewrite Nat.min_l by lia. rewrite Nat.sub_0_r.
    by rewrite take_app_length.
  - unfold substringFrom, clampIndex. rewrite length_app. simpl.
    replace (Z.to_nat (Z.of_nat (String.length key) + 1)) with (S (String.length key)) by lia.
    rewrite Nat.min_l by lia.
    replace (key +:+ String ":" value) with ((key +:+ ":") +:+ value).
    + replace (S (String.length key)) with (String.length (key +:+ ":")).
      * by rewrite drop_app_length.
      * rewrite length_app. simpl. lia.
    + clear. induction key as [|c r IH]; [done|].
      change ((String c r +:+ ":") +:+ value) with (String c ((r +:+ ":") +:+ value)).
      change (String c r +:+ String ":" value) with (String c (r +:+ String ":" value)).
      by rewrite IH.
Qed.
End ParserFacts.

(** C8, counterexample: the content of the two lines [Key: A] and [Key: B]
    has two well-formed lines, and the parser yields the single attribute
    [issueKey = B]. *)
Lemma parser_repeated_key_counterexample :
  let content := "Key: A" +:+ String JsString.LF "Key: B" in
  length (wellFormedLines content) = 2
  ∧ size (parseJiraContent content) = 1
  ∧ parseJiraContent content !! "issueKey" = Some "B"
  ∧ ¬ one_attribute_per_line.
Proof.
  split; [vm_compute; reflexivity|].
  split; [vm_compute; reflexivity|].
  split; [vm_compute; reflexivity|].
  intros Hclaim. specialize (Hclaim ("Key: A" +:+ String JsString.LF "Key: B")).
  vm_compute in Hclaim. discriminate.
Qed.

(** C8, amended: only the well-formed lines of the content (first colon at
    an index above 0) contribute, so the parser yields at most one attribute
    per well-formed line and never more attributes than lines; it yields
    exactly one per well-formed line when their normalised keys are pairwise
    distinct and none is [__proto__]. Every attribute comes from a
    well-formed line, under the slot of that line's key and with that line's
    value, and every well-formed line whose key is not [__proto__] has its
    slot filled. For a line [key:value] the key is the lower-cased trimmed
    key text, so it is matched whatever its case, and the value is
    trimmed. *)
Theorem parser_attributes (content : string) :
  let fields := parseJiraContent content in
  let wf := wellFormedLines content in
  fields = fold_left parseLine wf ∅
  ∧ size fields ≤ length wf
  ∧ length wf ≤ length (JsString.splitLines content)
  ∧ (NoDup (lineKey <$> wf) → "__proto__" ∉ lineKey <$> wf → size fields = length wf)
  ∧ (∀ k v, fields !! k = Some v →
       ∃ line, line ∈ wf ∧ k = slotOf (lineKey line) ∧ v = lineValue line)
  ∧ (∀ line, line ∈ wf → lineKey line ≠ "__proto__" →
       is_Some (fields !! slotOf (lineKey line)))
  ∧ (∀ key value, key ≠ "" → JsString.indexOf ":" key = (-1)%Z →
       let line := key +:+ String ":" value in
       wellFormed line = true
       ∧ lineKey line = JsString.trim (JsString.toLowerCase key)
       ∧ lineValue line = JsString.trim value).
Proof.
  unfold parseJiraContent, wellFormedLines. cbv zeta.
  split; [apply parse_fold_skip|].
  split; [pose proof (parse_fold_size (JsString.splitLines content) ∅) as Hs;
          by rewrite map_size_empty in Hs|].
  split; [apply List.filter_length_le|].
  split.
  { intros Hnd Hproto. rewrite parse_fold_size_exact; [by rewrite map_size_empty|done|].
    apply Forall_forall. intros line Hin. split; [|apply lookup_empty].
    intros Heq. apply Hproto. rewrite <- Heq. by apply list_elem_of_fmap_2. }
  split.
  { intros k v Hk. apply parse_fold_lookup in Hk as [Hk|Hk]; [|done].
    by rewrite lookup_empty in Hk. }
  split; [intros line Hin Hp; by apply parse_fold_present|].
  intros key value Hne Hcolon.
  destruct (keyValue_line key value Hne Hcolon) as (Hwf & Hk & Hv).
  by rewrite trim_toLowerCase.
Qed.

(** C8, witness: the three lines [Key: TEST-4], [Summary: test ticket] and
    [nocolon]. *)
Lemma parser_attributes_witness :
  let content :=
    "Key: TEST-4" +:+ String JsString.LF ("Summary: test ticket" +:+ String JsString.LF "nocolon") in
  size (parseJiraContent content) = 2
  ∧ parseJiraContent content !! "issueKey" = Some "TEST-4"
  ∧ lineKey ("KEY" +:+ String ":" " v ") = "key".
Proof.
  pose proof (parser_attributes
    ("Key: TEST-4" +:+ String JsString.LF ("Summary: test ticket" +:+ String JsString.LF "nocolon")))
    as (_ & _ & _ & Hexact & _ & _ & Hline).
  split; [|split].
  - rewrite Hexact; [by vm_compute| |]; compute_done.
  - by vm_compute.
  - destruct (Hline "KEY" " v ") as (_ & -> & _); by vm_compute.
Defined.

(** ** Running computations *)

Section EffectFacts.
Context `{Runtime}.

Lemma run_ret {A} (a : A) w : ret a w = (a, w, []).
Proof. reflexivity. Qed.

Lemma run_bind {A B} (m : M A) (k : A → M B) w :
  bind m k w =
  (value_of (k (value_of (m w)) (world_of (m w))),
   world_of (k (value_of (m w)) (world_of (m w))),
   trace_of (m w) ++ trace_of (k (value_of (m w)) (world_of (m w)))).
Proof.
  unfold bind, value_of, world_of, trace_of.
  destruct (m w) as [[a w1] t1]. simpl. by destruct (k a w1) as [[b w2] t2].
Qed.

Lemma value_of_run {A} (a : A) w t : value_of (a, w, t) = a.
Proof. reflexivity. Qed.

Lemma world_of_run {A} (a : A) w t : world_of (a, w, t) = w.
Proof. reflexivity. Qed.

Lemma trace_of_run {A} (a : A) w t : trace_of (a, w, t) = t.
Proof. reflexivity. Qed.

Lemma run_eta {A} (r : A * World * list Event) :
  r = (value_of r, world_of r, trace_of r).
Proof. by destruct r as [[a w] t]. Qed.

Lemma run_Date_now w : Date_now w = ((now w).1, (now w).2, []).
Proof. unfold Date_now. by destruct (now w). Qed.

Lemma run_send c w : dynamoDB_send c w = ((send c w).1, (send c w).2, [EvSend c]).
Proof. unfold dynamoDB_send. by destruct (send c w). Qed.

Lemma run_setTimeout ms w : setTimeout ms w = (tt, sleep ms w, [EvSleep ms]).
Proof. reflexivity. Qed.
End EffectFacts.

(** ** Record Builder *)

Section BuilderFacts.
Context `{Runtime}.
Import JsString JsStringFacts.

Lemma issueIdOf_value (fields : ParsedFields) w :
  value_of (issueIdOf fields w) =
  match fields !! "issueKey" with
  | Some (String c r) => String c r
  | _ => "unknown-" +:+ ofNumber (now w).1
  end.
Proof.
  unfold issueIdOf.
  destruct (fields !! "issueKey") as [[|c r]|];
    rewrite ?run_bind, ?run_Date_now, ?run_ret; done.
Qed.

Lemma createDynamoItem_value msg (fields : ParsedFields) w item :
  value_of (createDynamoItem msg fields w) = inr item →
  ∃ title content,
    getProperty msg "title" = inr title
    ∧ getProperty msg "content" = inr content
    ∧ item = extensionAttributes fields
               ∪ builderFields (value_of (issueIdOf fields (now w).2))
                   (toISOString (now w).1) title content fields.
Proof.
  unfold createDynamoItem. rewrite !run_bind, run_Date_now.
  unfold value_of at 1 2 3, world_of at 1 2 3 4. simpl.
  destruct (getProperty msg "title") as [e|title];
    destruct (getProperty msg "content") as [e'|content];
    rewrite run_ret; simpl; try discriminate.
  intros [= <-]. by exists title, content.
Qed.

Lemma createDynamoItem_returns msg (fields : ParsedFields) w :
  msg ≠ VUndefined → msg ≠ VNull →
  ∃ item, value_of (createDynamoItem msg fields w) = inr item.
Proof.
  intros Hu Hn. unfold createDynamoItem. rewrite !run_bind.
  assert (∃ t, getProperty msg "title" = inr t) as [t ->]
    by (destruct msg; simpl; eauto; done).
  assert (∃ c, getProperty msg "content" = inr c) as [c ->]
    by (destruct msg; simpl; eauto; done).
  rewrite run_ret. unfold value_of at 1. simpl. eauto.
Qed.

Lemma extension_lookup (fields : ParsedFields) k :
  extensionAttributes fields !! k =
  if decide (k ∈ canonicalKeys) then None else VString <$> fields !! k.
Proof.
  unfold extensionAttributes. rewrite lookup_fmap.
  destruct (filter _ fields !! k) as [v|] eqn:Hk.
  - apply map_lookup_filter_Some in Hk as [Hk Hnot]. simpl in Hnot.
    rewrite decide_False by done. by rewrite Hk.
  - case_decide; [done|]. destruct (fields !! k) as [v|] eqn:Hf; [|done].
    assert (filter (λ kv : string * string, kv.1 ∉ canonicalKeys) fields !! k = Some v)
      as Hc by (by apply map_lookup_filter_Some).
    congruence.
Qed.

Lemma item_lookup (fields : ParsedFields) (base : Item) k :
  (extensionAttributes fields ∪ base) !! k =
  match (if decide (k ∈ canonicalKeys) then None else fields !! k) with
  | Some v => Some (VString v)
  | None => base !! k
  end.
Proof.
  rewrite lookup_union, extension_lookup.
  case_decide; [by rewrite (left_id None _)|].
  destruct (fields !! k); simpl; [by destruct (base !! k)|by rewrite (left_id None _)].
Qed.
End BuilderFacts.

Lemma toLowerCase_hasUpper s : hasUpper (JsString.toLowerCase s) = false.
Proof.
  unfold hasUpper. induction s as [|c r IH]; simpl; [done|].
  by rewrite JsStringFacts.lowerChar_not_upper, IH.
Qed.

(** The parser's keys: [issueKey], or a string without capitals. *)
Lemma parser_key content k :
  is_Some (parseJiraContent content !! k) → k = "issueKey" ∨ hasUpper k = false.
Proof.
  intros [v Hk]. unfold parseJiraContent in Hk.
  apply parse_fold_lookup in Hk as [Hk|(line & _ & -> & _)];
    [by rewrite lookup_empty in Hk|].
  unfold slotOf. case_decide; [by left|right]. apply toLowerCase_hasUpper.
Qed.

Lemma parser_no_capital content k :
  hasUpper k = true → k ≠ "issueKey" → parseJiraContent content !! k = None.
Proof.
  intros Hup Hne. destruct (parseJiraContent content !! k) as [v|] eqn:Hk; [|done].
  destruct (parser_key content k) as [?|Hlow]; [by eexists|done|congruence].
Qed.

(** C3, counterexample: for the message [{ title: "Outage", content:
    "Title: X" }] the parser yields the extension attribute [title = X], and
    the record's [title] is [X], not the message's title. *)
Lemma extension_overwrites_title_counterexample :
  let msg := VObject [("title", VString "Outage"); ("content", VString "Title: X")] in
  let fields := parseJiraContent "Title: X" in
  fields !! "title" = Some "X"
  ∧ (∃ item, value_of (createDynamoItem (H := Examples.accepting) msg fields 0) = inr item
             ∧ item !! "title" = Some (VString "X"))
  ∧ ¬ canonical_fields_win.
Proof.
  split; [by vm_compute|]. split.
  - eexists. split; [reflexivity|]. by vm_compute.
  - intros Hclaim.
    pose (item := match value_of (createDynamoItem (H := Examples.accepting)
                                    (VObject [("title", VString "Outage");
                                              ("content", VString "Title: X")])
                                    (parseJiraContent "Title: X") 0) with
                  | inr i => i
                  | inl _ => ∅
                  end).
    destruct (Hclaim Examples.accepting
                (VObject [("title", VString "Outage"); ("content", VString "Title: X")])
                (parseJiraContent "Title: X") 0 item (VString "Outage") (VString "Title: X")
                eq_refl eq_refl eq_refl) as (Htitle & _).
    vm_compute in Htitle. discriminate.
Qed.

(** C3, amended: every extension attribute (a parsed key outside the
    canonical set) is in the record with its parsed value, also when its
    name is that of a field the builder writes: the extension attribute then
    replaces the builder's value. Every other field has the builder's
    value. With fields coming from the Content Parser, the fields [issueId],
    [summary], [priority], [creator], [status], [assignee], [lastUpdated]
    and [processedAt] are never replaced. *)
Theorem extension_attributes_merge `{Runtime} (msg : JSValue) (fields : ParsedFields)
    (w : World) (item : Item) :
  value_of (createDynamoItem msg fields w) = inr item →
  ∃ title content,
    getProperty msg "title" = inr title
    ∧ getProperty msg "content" = inr content
    ∧ let base :=
        builderFields (value_of (issueIdOf fields (now w).2))
          (toISOString (now w).1) title content fields in
      (∀ k v, k ∉ canonicalKeys → fields !! k = Some v → item !! k = Some (VString v))
      ∧ (∀ k, k ∈ canonicalKeys ∨ fields !! k = None → item !! k = base !! k)
      ∧ (∀ text, fields = parseJiraContent text →
           ∀ k, k ∈ ["issueId"; "summary"; "priority"; "creator"; "status";
                     "assignee"; "lastUpdated"; "processedAt"] →
                item !! k = base !! k).
Proof.
  intros (title & content & Ht & Hc & ->)%createDynamoItem_value.
  exists title, content. split; [done|]. split; [done|]. cbv zeta.
  split; [|split].
  - intros k v Hk Hf. rewrite item_lookup, decide_False by done. by rewrite Hf.
  - intros k [Hk|Hf]; rewrite item_lookup.
    + by rewrite decide_True.
    + case_decide; [done|]. by rewrite Hf.
  - intros text -> k Hk. rewrite item_lookup.
    destruct (decide (k ∈ canonicalKeys)) as [|Hext]; [done|].
    rewrite parser_no_capital; [done| |].
    + repeat (apply elem_of_cons in Hk as [->|Hk]; [try done|]);
        try by (exfalso; apply Hext; compute_done).
      by apply elem_of_nil in Hk.
    + intros ->. apply Hext. compute_done.
Qed.

(** C3, witness: the message of the counterexample. *)
Lemma extension_attributes_merge_witness :
  ∃ item : Item,
    item !! "title" = Some (VString "X")
    ∧ item !! "issueId" = Some (VString "unknown-1700000000000").
Proof.
  pose (msg := VObject [("title", VString "Outage"); ("content", VString "Title: X")]).
  pose (item := match value_of (createDynamoItem (H := Examples.accepting) msg
                                  (parseJiraContent "Title: X") 0) with
                | inr i => i
                | inl _ => ∅
                end).
  exists item.
  destruct (extension_attributes_merge (H := Examples.accepting) msg
              (parseJiraContent "Title: X") 0 item eq_refl)
    as (title & content & _ & _ & Hext & _ & Hkeep).
  split.
  - apply Hext; by compute_done.
  - rewrite (Hkeep "Title: X" eq_refl "issueId"); by compute_done.
Defined.

(** C7, counterexample: the content [Key:] gives the parsed [issueKey] the
    empty string, which is present and falsy, and the record's [issueId] is
    the generated token, not the empty [issueKey]. *)
Lemma empty_issueKey_counterexample :
  let msg := VObject [("title", VString "Outage"); ("content", VString "Key:")] in
  parseJiraContent "Key:" !! "issueKey" = Some ""
  ∧ (∃ item, value_of (createDynamoItem (H := Examples.accepting) msg
                         (parseJiraContent "Key:") 0) = inr item
             ∧ item !! "issueId" = Some (VString "unknown-1700000000000"))
  ∧ ¬ issueId_is_issueKey_unless_absent.
Proof.
  split; [by vm_compute|]. split.
  - eexists. split; [reflexivity|]. by vm_compute.
  - intros Hclaim.
    pose (item := match value_of (createDynamoItem (H := Examples.accepting)
                                    (VObject [("title", VString "Outage");
                                              ("content", VString "Key:")])
                                    (parseJiraContent "Key:") 0) with
                  | inr i => i
                  | inl _ => ∅
                  end).
    pose proof (Hclaim Examples.accepting
                  (VObject [("title", VString "Outage"); ("content", VString "Key:")])
                  "Key:" 0 item eq_refl) as Hid.
    vm_compute in Hid. discriminate.
Qed.

(** C7, amended: for every record built from the Content Parser's fields,
    if the parsed [issueKey] is absent or the empty string, [issueId] is
    [unknown-] followed by the decimal digits of the clock's epoch
    milliseconds, read after the timestamp; otherwise [issueId] is the
    parsed [issueKey]. *)
Theorem issueId_of_record `{Runtime} (msg : JSValue) (text : string) (w : World)
    (item : Item) :
  value_of (createDynamoItem msg (parseJiraContent text) w) = inr item →
  match parseJiraContent text !! "issueKey" with
  | Some (String c r) => item !! "issueId" = Some (VString (String c r))
  | _ =>
      let digits := JsString.ofNumber (now (now w).2).1 in
      JsString.isDigits digits = true
      ∧ item !! "issueId" = Some (VString ("unknown-" +:+ digits))
  end.
Proof.
  intros (title & content & _ & _ & ->)%createDynamoItem_value.
  assert (∀ base : Item,
            (extensionAttributes (parseJiraContent text) ∪ base) !! "issueId"
            = base !! "issueId") as Hid.
  { intros base. rewrite item_lookup, decide_False by compute_done.
    by rewrite parser_no_capital. }
  rewrite Hid, issueIdOf_value.
  destruct (parseJiraContent text !! "issueKey") as [[|c r]|]; cbv zeta;
    rewrite ?JsStringFacts.ofNumber_isDigits; done.
Qed.

(** C7, witness: the contents [Key: TEST-4] and [Summary: no key]. *)
Lemma issueId_of_record_witness :
  (∃ item : Item, item !! "issueId" = Some (VString "TEST-4"))
  ∧ (∃ item : Item, item !! "issueId" = Some (VString "unknown-1700000000000")).
Proof.
  pose (msg := VObject [("title", VString "Outage")]).
  pose (build := fun text =>
          match value_of (createDynamoItem (H := Examples.accepting) msg
                            (parseJiraContent text) 0) with
          | inr i => i
          | inl _ => ∅
          end).
  split.
  - exists (build "Key: TEST-4").
    exact (issueId_of_record (H := Examples.accepting) msg "Key: TEST-4" 0
             (build "Key: TEST-4") eq_refl).
  - exists (build "Summary: no key").
    exact (proj2 (issueId_of_record (H := Examples.accepting) msg "Summary: no key" 0
                    (build "Summary: no key") eq_refl)).
Defined.

(** ** Batch Writer *)

Lemma submissions_retryEvents l t :
  submissions (retryEvents l ++ t) = submissions t.
Proof. induction l as [|[ms c] l IH]; simpl; done. Qed.

Lemma slice_chunk {A} (l : list A) (i : nat) :
  slice (Z.of_nat i) (Z.of_nat (i + MAX_BATCH_SIZE)) l
  = take MAX_BATCH_SIZE (drop i l).
Proof.
  unfold slice, relativeIndex, MAX_BATCH_SIZE.
  rewrite !(proj2 (Z.ltb_ge _ _)) by lia. rewrite !Nat2Z.id.
  destruct (decide (i ≤ length l)) as [Hi|Hi].
  - rewrite (Nat.min_l i) by done.
    destruct (decide (i + 25 ≤ length l)).
    + rewrite Nat.min_l by done. f_equal. lia.
    + rewrite Nat.min_r by lia. rewrite !take_ge; [done|rewrite length_drop; lia..].
  - rewrite !Nat.min_r by lia. rewrite !drop_ge by lia. by rewrite !take_nil.
Qed.

Section BatchFacts.
Context `{Runtime}.

Lemma retryLoop_step unprocessed retryCount w :
  retryLoop unprocessed retryCount w =
  if decide (0 < length unprocessed ∧ retryCount < MAX_RETRIES) then
    let delay := (2 ^ Z.of_nat retryCount * 100)%Z in
    let command := BatchWriteCommand DYNAMODB_TABLE unprocessed in
    match send command (sleep delay w) with
    | (Rejected e, w') => (inl e, w', [EvSleep delay; EvSend command])
    | (Resolved returned, w') =>
        let r := retryLoop returned (S retryCount) w' in
        (value_of r, world_of r, EvSleep delay :: EvSend command :: trace_of r)
    end
  else (inr unprocessed, w, []).
Proof.
  rewrite retryLoop_equation_1.
  destruct (decide (0 < length unprocessed ∧ retryCount < MAX_RETRIES)); simpl; [|done].
  rewrite !run_bind, run_setTimeout, run_send.
  unfold value_of at 1 2 3 4, world_of at 1 2 3 4 5, trace_of at 1 2. simpl.
  destruct (send _ _) as [[returned|e] w']; simpl; [|done].
  by rewrite (run_eta (retryLoop _ _ _)) at 1.
Qed.

Lemma retryLoop_spec unprocessed retryCount w :
  RetrySpec retryCount unprocessed w (retryLoop unprocessed retryCount w).
Proof.
  remember (MAX_RETRIES - retryCount) as n eqn:Hn.
  revert unprocessed retryCount w Hn.
  induction n as [n IH] using lt_wf_ind. intros unprocessed retryCount w Hn.
  rewrite retryLoop_step.
  destruct (decide (0 < length unprocessed ∧ retryCount < MAX_RETRIES)) as [[Hlen Hlt]|Hstop].
  - assert (unprocessed ≠ []) as Hne by (intros ->; simpl in Hlen; lia).
    cbv zeta. destruct (send _ _) as [[returned|e] w'] eqn:Hsend.
    + eapply retry_resubmit; [done..|].
      rewrite <- run_eta. eapply (IH (MAX_RETRIES - S retryCount)); lia.
    + by apply retry_throw.
  - apply retry_stop. destruct unprocessed; [by left|right].
    simpl in Hstop. lia.
Qed.
End BatchFacts.

Section BatchRun.
Context `{Runtime}.

Lemma RetrySpec_shape attempt unprocessed w out w' t :
  RetrySpec attempt unprocessed w (out, w', t) →
  ∃ l, t = retryEvents l
       ∧ attempt + length l ≤ Nat.max attempt MAX_RETRIES
       ∧ delays t = (λ j, 2 ^ Z.of_nat j * 100)%Z <$> seq attempt (length l).
Proof.
  intros Hspec. remember (out, w', t) as r eqn:Hr. revert out w' t Hr.
  induction Hspec as [attempt unprocessed w Hstop
                     |attempt unprocessed w returned w1 out1 w2 t1 Hne Hlt Hsend Hrest IH
                     |attempt unprocessed w e w1 Hne Hlt Hsend];
    intros out w' t [= <- <- <-].
  - exists []. simpl. split; [done|]. split; [lia|done].
  - destruct (IH _ _ _ eq_refl) as (l & -> & Hlen & Hdelays).
    exists (((2 ^ Z.of_nat attempt * 100)%Z,
             BatchWriteCommand DYNAMODB_TABLE unprocessed) :: l).
    simpl. split; [done|]. split; [lia|]. f_equal. exact Hdelays.
  - exists [((2 ^ Z.of_nat attempt * 100)%Z,
             BatchWriteCommand DYNAMODB_TABLE unprocessed)].
    simpl. split; [done|]. split; [lia|done].
Qed.

Lemma tryBlock_run chunk w :
  tryBlock chunk w =
  let command := BatchWriteCommand DYNAMODB_TABLE (map PutRequest chunk) in
  match send command w with
  | (Rejected e, w') => (inl e, w', [EvSend command])
  | (Resolved unprocessed, w') =>
      let r := retryLoop unprocessed 0 w' in
      (value_of r, world_of r, EvSend command :: trace_of r)
  end.
Proof.
  unfold tryBlock. rewrite run_bind, run_send.
  unfold value_of at 1 2 3, world_of at 1 2 3, trace_of at 1. simpl.
  destruct (send _ w) as [[unprocessed|e] w']; simpl; [|done].
  by rewrite (run_eta (retryLoop _ _ _)) at 1.
Qed.

Lemma processChunk_run chunk results w :
  processChunk chunk results w =
  (match value_of (tryBlock chunk w) with
   | inl e => recordFailure results chunk e
   | inr unprocessed => recordOutcome results chunk unprocessed
   end,
   world_of (tryBlock chunk w), trace_of (tryBlock chunk w)).
Proof.
  unfold processChunk, tryCatch, bindE. rewrite !run_bind.
  unfold value_of at 1 2 3 4, world_of at 1 2 3 4 5 6 7, trace_of at 1 2 3 4. simpl.
  destruct (tryBlock chunk w) as [[[e|unprocessed] w'] t]; simpl;
    by rewrite !app_nil_r.
Qed.

Lemma batchLoop_step items i results w :
  batchLoop items i results w =
  if decide (i < length items) then
    let chunk := take MAX_BATCH_SIZE (drop i items) in
    let p := processChunk chunk results w in
    let r := batchLoop items (i + MAX_BATCH_SIZE) (value_of p) (world_of p) in
    (value_of r, world_of r, trace_of p ++ trace_of r)
  else (results, w, []).
Proof.
  rewrite batchLoop_equation_1.
  destruct (decide (i < length items)); simpl; [|done].
  by rewrite run_bind, slice_chunk.
Qed.

(** The trace of one group: its submission, then retries. *)
Lemma tryBlock_trace chunk w :
  ∃ l, trace_of (tryBlock chunk w)
       = EvSend (BatchWriteCommand DYNAMODB_TABLE (map PutRequest chunk)) :: retryEvents l
       ∧ length l ≤ MAX_RETRIES.
Proof.
  rewrite tryBlock_run. cbv zeta.
  destruct (send _ w) as [[unprocessed|e] w'].
  - pose proof (retryLoop_spec unprocessed 0 w') as Hspec.
    rewrite (run_eta (retryLoop _ _ _)) in Hspec.
    apply RetrySpec_shape in Hspec as (l & Hl & Hlen & _).
    exists l. unfold trace_of at 1. simpl. rewrite Hl. split; [done|].
    unfold MAX_RETRIES in *. lia.
  - exists []. split; [done|]. unfold MAX_RETRIES. simpl. lia.
Qed.

Lemma processChunk_total chunk results w :
  let r := value_of (processChunk chunk results w) in
  (successful r + failed r
   = successful results + failed results + Z.of_nat (length chunk))%Z.
Proof.
  cbv zeta. rewrite processChunk_run, !value_of_run.
  destruct (value_of (tryBlock chunk w)); simpl; lia.
Qed.

Lemma ceilDiv_step n :
  0 < n → ceilDiv n MAX_BATCH_SIZE = S (ceilDiv (n - MAX_BATCH_SIZE) MAX_BATCH_SIZE).
Proof.
  unfold ceilDiv, MAX_BATCH_SIZE. intros Hn.
  destruct (decide (n < 25)) as [Hlt|Hge].
  - replace (n - 25 + 25 - 1) with 24 by lia.
    rewrite (Nat.div_small 24 25) by lia.
    symmetry. apply (Nat.div_unique _ _ _ (n - 1)); lia.
  - replace (n + 25 - 1) with (n - 25 + 25 - 1 + 1 * 25) by lia.
    rewrite Nat.div_add by lia. lia.
Qed.

(** The loop from index [i]: the totals grow by the number of records
    left, and the records left are submitted group by group. *)
Lemma batchLoop_groups items i results w :
  let r := batchLoop items i results w in
  (successful (value_of r) + failed (value_of r)
   = successful results + failed results + Z.of_nat (length items - i))%Z
  ∧ ∃ groups : list (list Item),
      concat groups = drop i items
      ∧ length groups = ceilDiv (length items - i) MAX_BATCH_SIZE
      ∧ Forall (λ g, 0 < length g ≤ MAX_BATCH_SIZE) groups
      ∧ submissions (trace_of r)
        = (λ g, BatchWriteCommand DYNAMODB_TABLE (map PutRequest g)) <$> groups.
Proof.
  remember (length items - i) as n eqn:Hn. revert i results w Hn.
  induction n as [n IH] using lt_wf_ind. intros i results w Hn. cbv zeta.
  rewrite batchLoop_step. destruct (decide (i < length items)) as [Hi|Hi].
  - cbv zeta. set (chunk := take MAX_BATCH_SIZE (drop i items)).
    set (p := processChunk chunk results w).
    destruct (IH (length items - (i + MAX_BATCH_SIZE))
                ltac:(unfold MAX_BATCH_SIZE; lia)
                (i + MAX_BATCH_SIZE) (value_of p) (world_of p) eq_refl)
      as (Hsum & groups & Hconcat & Hlen & Hall & Hsub).
    assert (length chunk = Nat.min MAX_BATCH_SIZE (length items - i)) as Hchunk
      by (unfold chunk; by rewrite length_take, length_drop).
    rewrite !value_of_run, trace_of_run. split.
    + rewrite Hsum. pose proof (processChunk_total chunk results w) as Hp.
      cbv zeta in Hp. fold p in Hp. unfold MAX_BATCH_SIZE in *. lia.
    + exists (chunk :: groups). split; [|split; [|split]].
      * simpl. rewrite Hconcat. unfold chunk.
        rewrite <- drop_drop. apply take_drop.
      * change (length (chunk :: groups)) with (S (length groups)).
        rewrite Hlen. subst n.
        rewrite (ceilDiv_step (length items - i)) by lia. do 2 f_equal. lia.
      * apply Forall_cons. split; [|done]. unfold MAX_BATCH_SIZE in *. lia.
      * unfold p at 1. rewrite processChunk_run, trace_of_run.
        destruct (tryBlock_trace chunk w) as (l & -> & _).
        simpl. by rewrite submissions_retryEvents, Hsub.
  - rewrite !value_of_run, trace_of_run. split; [lia|]. exists []. simpl.
    rewrite drop_ge by lia. replace n with 0 by lia. done.
Qed.
End BatchRun.

Section BatchTheorems.
Context `{Runtime}.

Lemma batchLoop_appends items i results w :
  ∃ (later : Z) (messages : list string),
    (0 ≤ later)%Z
    ∧ failed (value_of (batchLoop items i results w)) = (failed results + later)%Z
    ∧ errors (value_of (batchLoop items i results w)) = errors results ++ messages.
Proof.
  remember (length items - i) as n eqn:Hn. revert i results w Hn.
  induction n as [n IH] using lt_wf_ind. intros i results w Hn.
  rewrite batchLoop_step. destruct (decide (i < length items)) as [Hi|Hi].
  - cbv zeta. rewrite value_of_run.
    set (chunk := take MAX_BATCH_SIZE (drop i items)).
    destruct (IH (length items - (i + MAX_BATCH_SIZE))
                ltac:(unfold MAX_BATCH_SIZE; lia) (i + MAX_BATCH_SIZE)
                (value_of (processChunk chunk results w))
                (world_of (processChunk chunk results w)) eq_refl)
      as (later & messages & Hpos & -> & ->).
    rewrite processChunk_run, value_of_run.
    destruct (value_of (tryBlock chunk w)) as [e|unprocessed]; simpl.
    + exists (Z.of_nat (length chunk) + later)%Z, (message e :: messages).
      rewrite <- app_assoc. split; [lia|]. split; [lia|done].
    + exists (Z.of_nat (length unprocessed) + later)%Z.
      destruct (0 <? length unprocessed).
      * eexists. rewrite <- app_assoc. split; [lia|]. split; [lia|done].
      * exists messages. split; [lia|]. split; [lia|done].
  - rewrite value_of_run. exists 0%Z, []. rewrite app_nil_r. split; [lia|]. split; [lia|done].
Qed.

Lemma single_group_run chunk w :
  length chunk ≤ MAX_BATCH_SIZE → 0 < length chunk →
  batchWriteToDynamoDB chunk w
  = processChunk chunk {| successful := 0; failed := 0; errors := [] |} w.
Proof.
  intros Hle Hpos. unfold batchWriteToDynamoDB.
  rewrite batchLoop_step, decide_True by done. cbv zeta.
  rewrite drop_0, take_ge by done.
  rewrite batchLoop_step, decide_False by (simpl; lia).
  destruct (processChunk chunk _ w) as [[r w'] t].
  unfold value_of, world_of, trace_of. simpl. by rewrite app_nil_r.
Qed.

Lemma retryLoop_same_items unprocessed w :
  unprocessed ≠ [] →
  (∀ c w0, (send c w0).1 = Resolved unprocessed) →
  let retry := EvSend (BatchWriteCommand DYNAMODB_TABLE unprocessed) in
  value_of (retryLoop unprocessed 0 w) = inr unprocessed
  ∧ trace_of (retryLoop unprocessed 0 w)
    = [EvSleep 100; retry; EvSleep 200; retry; EvSleep 400; retry].
Proof.
  intros Hne Hsame. cbv zeta.
  assert (0 < length unprocessed) as Hlen by (destruct unprocessed; [done|simpl; lia]).
  assert (∀ k w0, k < MAX_RETRIES →
            retryLoop unprocessed k w0 =
            let delay := (2 ^ Z.of_nat k * 100)%Z in
            let command := BatchWriteCommand DYNAMODB_TABLE unprocessed in
            let r := retryLoop unprocessed (S k) (send command (sleep delay w0)).2 in
            (value_of r, world_of r, EvSleep delay :: EvSend command :: trace_of r))
    as Hstep.
  { intros k w0 Hk. rewrite retryLoop_step, decide_True by done. cbv zeta.
    pose proof (Hsame (BatchWriteCommand DYNAMODB_TABLE unprocessed)
                  (sleep (2 ^ Z.of_nat k * 100)%Z w0)) as Hs.
    destruct (send _ _) as [r w']. simpl in Hs. by subst r. }
  do 3 (rewrite Hstep by (unfold MAX_RETRIES; lia); cbv zeta;
        rewrite ?value_of_run, ?trace_of_run, ?world_of_run).
  rewrite retryLoop_step, decide_False by (unfold MAX_RETRIES; lia).
  by rewrite value_of_run, trace_of_run.
Qed.

(** C1: for every list of N records, the Batch Writer returns totals with
    [successful + failed = N], and the records are cut into exactly
    [ceil(N/25)] contiguous groups of 1 to 25 records whose concatenation
    is the input; the first submissions of the run are these groups, each
    as one batched put request, in input order. *)
Theorem batch_partition (items : list Item) (w : World) :
  let r := batchWriteToDynamoDB items w in
  (successful (value_of r) + failed (value_of r) = Z.of_nat (length items))%Z
  ∧ ∃ groups : list (list Item),
      concat groups = items
      ∧ length groups = ceilDiv (length items) MAX_BATCH_SIZE
      ∧ Forall (λ g, 0 < length g ≤ MAX_BATCH_SIZE) groups
      ∧ submissions (trace_of r)
        = (λ g, BatchWriteCommand DYNAMODB_TABLE (map PutRequest g)) <$> groups.
Proof.
  cbv zeta. unfold batchWriteToDynamoDB.
  destruct (batchLoop_groups items 0 {| successful := 0; failed := 0; errors := [] |} w)
    as (Hsum & groups & Hconcat & Hlen & Hall & Hsub).
  rewrite Nat.sub_0_r in Hsum, Hlen. rewrite drop_0 in Hconcat. simpl in Hsum.
  split; [lia|]. by exists groups.
Qed.

(** C2: when the first submission of a group returns a non-empty
    unprocessed list, the rest of the group's trace follows the retry
    relation from attempt 0: it waits [2^attempt * 100] and resubmits only
    the unprocessed items while that list is non-empty and the attempt
    counter is below 3, so its waits are a prefix of 100, 200, 400. If the
    store returns the same unprocessed items to every command, the waits
    are exactly 100, 200, 400, each followed by a resubmission of those
    items, and after the third retry their number is added to [failed]
    and the message [<n> items failed after retries] is appended to the
    errors. A list of 1 to 25 records is processed as this one group. *)
Theorem retry_policy (chunk : list Item) (results : Results) (w : World)
    (unprocessed : list WriteRequest) :
  let command := BatchWriteCommand DYNAMODB_TABLE (map PutRequest chunk) in
  (send command w).1 = Resolved unprocessed →
  unprocessed ≠ [] →
  let group := tryBlock chunk w in
  ∃ t,
    trace_of group = EvSend command :: t
    ∧ RetrySpec 0 unprocessed (send command w).2 (value_of group, world_of group, t)
    ∧ delays t `prefix_of` [100; 200; 400]%Z
    ∧ processChunk chunk results w
      = (match value_of group with
         | inl e => recordFailure results chunk e
         | inr remaining => recordOutcome results chunk remaining
         end, world_of group, trace_of group)
    ∧ ((∀ c w0, (send c w0).1 = Resolved unprocessed) →
         let retry := EvSend (BatchWriteCommand DYNAMODB_TABLE unprocessed) in
         t = [EvSleep 100; retry; EvSleep 200; retry; EvSleep 400; retry]
         ∧ value_of (processChunk chunk results w)
           = {| successful :=
                  successful results
                  + (Z.of_nat (length chunk) - Z.of_nat (length unprocessed));
                failed := failed results + Z.of_nat (length unprocessed);
                errors :=
                  errors results
                  ++ [JsString.ofNumber (N.of_nat (length unprocessed))
                        +:+ " items failed after retries"] |})
    ∧ (0 < length chunk ≤ MAX_BATCH_SIZE →
         batchWriteToDynamoDB chunk w
         = processChunk chunk {| successful := 0; failed := 0; errors := [] |} w).
Proof.
  intros command Hfirst Hne group.
  assert (group = (value_of (retryLoop unprocessed 0 (send command w).2),
                   world_of (retryLoop unprocessed 0 (send command w).2),
                   EvSend command :: trace_of (retryLoop unprocessed 0 (send command w).2)))
    as Hgroup.
  { unfold group. rewrite tryBlock_run. cbv zeta. fold command.
    destruct (send command w) as [r w']. simpl in Hfirst. by subst r. }
  exists (trace_of (retryLoop unprocessed 0 (send command w).2)).
  pose proof (retryLoop_spec unprocessed 0 (send command w).2) as Hspec.
  rewrite (run_eta (retryLoop _ _ _)) in Hspec.
  split; [by rewrite Hgroup|].
  split; [by rewrite Hgroup, value_of_run, world_of_run|].
  split.
  { apply RetrySpec_shape in Hspec as (l & _ & Hlen & ->).
    unfold MAX_RETRIES in Hlen.
    destruct l as [|? [|? [|? [|? l]]]]; simpl in *; try lia.
    - apply prefix_nil.
    - by exists [200; 400]%Z.
    - by exists [400]%Z.
    - by exists []. }
  split; [apply processChunk_run|].
  split; [|intros [Hpos Hle]; by apply single_group_run].
  intros Hsame retry.
  destruct (retryLoop_same_items unprocessed (send command w).2 Hne Hsame)
    as [Hvalue Htrace].
  split; [exact Htrace|].
  rewrite processChunk_run, value_of_run. fold group.
  rewrite Hgroup, value_of_run, Hvalue. unfold recordOutcome.
  assert (0 < length unprocessed) as Hlen by (destruct unprocessed; [done|simpl; lia]).
  by rewrite (proj2 (Nat.ltb_lt _ _) Hlen).
Qed.

(** C5: when a submission call of the group at index [i] throws [e] (the
    first submission or a retry), the writer adds the whole group's size
    to [failed], appends [e]'s message to the errors, and goes on with
    the loop at [i + 25]: every remaining group is still submitted, and
    the totals returned at the end still contain the group's size and the
    message. A first submission that throws is such a case. *)
Theorem hard_failure_isolated (items : list Item) (i : nat) (results : Results)
    (w : World) (e : Error) :
  i < length items →
  let chunk := slice (Z.of_nat i) (Z.of_nat (i + MAX_BATCH_SIZE)) items in
  let group := tryBlock chunk w in
  value_of group = inl e →
  let results' :=
    {| successful := successful results;
       failed := failed results + Z.of_nat (length chunk);
       errors := errors results ++ [message e] |} in
  let rest := batchLoop items (i + MAX_BATCH_SIZE) results' (world_of group) in
  batchLoop items i results w
  = (value_of rest, world_of rest, trace_of group ++ trace_of rest)
  ∧ (∃ groups : list (list Item),
       concat groups = drop (i + MAX_BATCH_SIZE) items
       ∧ length groups = ceilDiv (length items - (i + MAX_BATCH_SIZE)) MAX_BATCH_SIZE
       ∧ submissions (trace_of rest)
         = (λ g, BatchWriteCommand DYNAMODB_TABLE (map PutRequest g)) <$> groups)
  ∧ (∃ (later : Z) (messages : list string),
       (0 ≤ later)%Z
       ∧ failed (value_of rest)
         = (failed results + Z.of_nat (length chunk) + later)%Z
       ∧ errors (value_of rest) = errors results ++ [message e] ++ messages)
  ∧ (∀ e', (send (BatchWriteCommand DYNAMODB_TABLE (map PutRequest chunk)) w).1
           = Rejected e' → value_of group = inl e').
Proof.
  intros Hi chunk group Hthrow results' rest.
  split; [|split; [|split]].
  - rewrite batchLoop_step, decide_True by done. cbv zeta.
    rewrite <- slice_chunk. fold chunk.
    rewrite processChunk_run, value_of_run, world_of_run, trace_of_run.
    fold group. by rewrite Hthrow.
  - destruct (batchLoop_groups items (i + MAX_BATCH_SIZE) results' (world_of group))
      as (_ & groups & Hconcat & Hlen & _ & Hsub).
    by exists groups.
  - destruct (batchLoop_appends items (i + MAX_BATCH_SIZE) results' (world_of group))
      as (later & messages & Hpos & Hfailed & Herrors).
    exists later, messages. fold rest in Hfailed, Herrors.
    rewrite Hfailed, Herrors. simpl. by rewrite <- app_assoc.
  - intros e' Hsend. unfold group. rewrite tryBlock_run. cbv zeta.
    destruct (send _ w) as [r w']. simpl in Hsend. by subst r.
Qed.
End BatchTheorems.

(** ** Fallback Writer *)

Section FallbackFacts.
Context `{Runtime}.

Lemma putOutcomes_length items w : length (putOutcomes items w) = length items.
Proof. revert w. induction items as [|item rest IH]; intros w; simpl; [done|]. by rewrite IH. Qed.

Lemma writeItem_run item w :
  writeItem item w
  = (settle item (send (PutCommand DYNAMODB_TABLE item) w).1,
     (send (PutCommand DYNAMODB_TABLE item) w).2,
     [EvSend (PutCommand DYNAMODB_TABLE item)]).
Proof.
  unfold writeItem. rewrite run_bind, run_send, value_of_run, world_of_run, trace_of_run.
  by destruct (send _ w) as [[unprocessed|e] w'].
Qed.

Lemma allSettled_run items w :
  value_of (allSettled writeItem items w) = zip_with settle items (putOutcomes items w)
  ∧ trace_of (allSettled writeItem items w)
    = (λ item, EvSend (PutCommand DYNAMODB_TABLE item)) <$> items.
Proof.
  revert w. induction items as [|item rest IH]; intros w; [done|].
  change (allSettled writeItem (item :: rest))
    with (bind (writeItem item)
            (λ r, bind (allSettled writeItem rest) (λ rs, ret (r :: rs)))).
  rewrite run_bind, writeItem_run, value_of_run, world_of_run, trace_of_run.
  rewrite run_bind, run_ret, !value_of_run, !trace_of_run, app_nil_r.
  destruct (IH (send (PutCommand DYNAMODB_TABLE item) w).2) as [-> ->]. done.
Qed.

Lemma tally_fold items outcomes results :
  length outcomes = length items →
  let r := fold_left tally (zip_with settle items outcomes) results in
  successful r
  = (successful results
     + Z.of_nat (length (List.filter (λ o, negb (isRejected o)) outcomes)))%Z
  ∧ failed r
    = (failed results + Z.of_nat (length (List.filter isRejected outcomes)))%Z
  ∧ errors r
    = errors results ++ omap (λ p, failureEntry p.1 p.2) (zip items outcomes).
Proof.
  revert outcomes results.
  induction items as [|item rest IH]; intros [|o outcomes] results Hlen;
    simpl in Hlen; try discriminate; cbv zeta.
  - simpl. rewrite app_nil_r. split; [lia|]. split; [lia|done].
  - injection Hlen as Hlen.
    change (fold_left tally (zip_with settle (item :: rest) (o :: outcomes)) results)
      with (fold_left tally (zip_with settle rest outcomes)
              (tally results (settle item o))).
    destruct (IH outcomes (tally results (settle item o)) Hlen) as (-> & -> & ->).
    destruct o as [unprocessed|e]; simpl.
    + split; [lia|]. split; [lia|done].
    + rewrite <- app_assoc. split; [lia|]. split; [lia|done].
Qed.

Lemma fallbackIndividualWrite_run items w :
  fallbackIndividualWrite items w
  = (fold_left tally (value_of (allSettled writeItem items w))
       {| successful := 0; failed := 0; errors := [] |},
     world_of (allSettled writeItem items w),
     trace_of (allSettled writeItem items w)).
Proof.
  unfold fallbackIndividualWrite, bind, ret, value_of, world_of, trace_of.
  destruct (allSettled writeItem items w) as [[rs w'] t]. simpl. by rewrite app_nil_r.
Qed.

Lemma fallback_run_trace items w :
  trace_of (fallbackIndividualWrite items w)
  = (λ item, EvSend (PutCommand DYNAMODB_TABLE item)) <$> items.
Proof.
  rewrite fallbackIndividualWrite_run, trace_of_run. apply allSettled_run.
Qed.

(** C6: for every list of records, the Fallback Writer issues one
    single-item put per record, in input order, and gets one write result
    per record, each determined by that record and the store's answer to
    its own put, so a put that throws changes no other record's result.
    The totals satisfy [successful + failed = length], [failed] is the
    number of puts that threw, and the error list has, for each of them in
    order, the entry [<issueId>: <message>] with that record's [issueId].
    The writer is a total function into its results: no exception leaves
    it. *)
Theorem fallback_accounting (items : list Item) (w : World) :
  let r := fallbackIndividualWrite items w in
  let outcomes := putOutcomes items w in
  length outcomes = length items
  ∧ trace_of r = (λ item, EvSend (PutCommand DYNAMODB_TABLE item)) <$> items
  ∧ value_of (allSettled writeItem items w) = zip_with settle items outcomes
  ∧ (successful (value_of r) + failed (value_of r) = Z.of_nat (length items))%Z
  ∧ failed (value_of r) = Z.of_nat (length (List.filter isRejected outcomes))
  ∧ errors (value_of r) = omap (λ p, failureEntry p.1 p.2) (zip items outcomes).
Proof.
  cbv zeta. pose proof (putOutcomes_length items w) as Hlen.
  destruct (allSettled_run items w) as [Hvalue Htrace].
  rewrite fallbackIndividualWrite_run, !value_of_run, trace_of_run, Hvalue.
  destruct (tally_fold items (putOutcomes items w)
              {| successful := 0; failed := 0; errors := [] |} Hlen)
    as (Hs & Hf & He).
  split; [done|]. split; [done|]. split; [done|].
  rewrite Hs, Hf, He. simpl. split; [|done].
  rewrite <- Hlen. clear.
  induction (putOutcomes items w) as [|[?|?] l IH]; simpl in *; lia.
Qed.
End FallbackFacts.

(** The scenario of the specification: five puts of which the second and
    the fourth throw. *)
Example fallback_two_of_five :
  let store := Examples.scripted
                 (λ n _, if decide (n = 1 ∨ n = 3)
                         then Rejected (mkError "throttled") else Resolved []) [] in
  let record (id : string) : Item := {[ "issueId" := VString id ]} in
  value_of (fallbackIndividualWrite (H := store)
              [record "A-1"; record "A-2"; record "A-3"; record "A-4"; record "A-5"] 0)
  = {| successful := 3; failed := 2;
       errors := ["A-2: throttled"; "A-4: throttled"] |}.
Proof. by vm_compute. Qed.

(** ** Handler *)

Section HandlerFacts.
Context `{Runtime}.

Lemma createDynamoItem_trace msg (fields : ParsedFields) w :
  trace_of (createDynamoItem msg fields w) = [].
Proof.
  unfold createDynamoItem. rewrite !run_bind, run_Date_now, !trace_of_run.
  rewrite value_of_run, world_of_run.
  assert (trace_of (issueIdOf fields (now w).2) = []) as ->.
  { unfold issueIdOf. destruct (fields !! "issueKey") as [[|c r]|];
      rewrite ?run_bind, ?run_Date_now, ?run_ret, ?trace_of_run; done. }
  destruct (getProperty msg "title"), (getProperty msg "content"); by rewrite run_ret.
Qed.

Lemma parseRecord_fails record w e :
  parseFailure record = Some e → parseRecord record w = (inl e, w, []).
Proof.
  unfold parseFailure, parseRecord. intros Hf.
  destruct (JSON_parse (body record)) as [e1|msg]; [by injection Hf as ->|].
  destruct (getProperty msg "content") as [e2|content]; [by injection Hf as ->|].
  destruct (parseContent content) as [e3|fields]; [by injection Hf as ->|done].
Qed.

Lemma parseRecord_parses record w :
  parseFailure record = None →
  ∃ item, value_of (parseRecord record w) = inr item
          ∧ trace_of (parseRecord record w) = [].
Proof.
  unfold parseFailure, parseRecord. intros Hf.
  destruct (JSON_parse (body record)) as [e1|msg]; [done|].
  destruct (getProperty msg "content") as [e2|content] eqn:Hc; [done|].
  destruct (parseContent content) as [e3|fields]; [done|].
  destruct (createDynamoItem_returns msg fields w) as [item Hitem].
  - by intros ->.
  - by intros ->.
  - exists item. split; [done|apply createDynamoItem_trace].
Qed.

Lemma parseRecords_run records items errs w :
  let r := parseRecords records items errs w in
  trace_of r = []
  ∧ (∃ built, (value_of r).1 = items ++ built
              ∧ length built = length (List.filter parses records))
  ∧ (value_of r).2 = errs ++ omap parseErrorOf records
  ∧ (List.filter parses records = [] → world_of r = w).
Proof.
  revert items errs w. induction records as [|record rest IH]; intros items errs w.
  - cbv zeta. unfold value_of, world_of, trace_of. simpl.
    rewrite app_nil_r. split; [done|]. split; [|done]. exists []. by rewrite app_nil_r.
  - cbv zeta.
    change (parseRecords (record :: rest) items errs)
      with (bind (parseRecord record)
              (λ r, match r with
                    | inr item => parseRecords rest (items ++ [item]) errs
                    | inl parseError =>
                        parseRecords rest items
                          (errs ++ [{| failedMessageId := messageId record;
                                       parseErrorMessage := message parseError |}])
                    end)).
    rewrite run_bind, value_of_run, world_of_run, trace_of_run.
    unfold parses, parseErrorOf. simpl.
    destruct (parseFailure record) as [e|] eqn:Hf.
    + rewrite (parseRecord_fails record w e Hf), value_of_run, world_of_run, trace_of_run.
      destruct (IH items (errs ++ [{| failedMessageId := messageId record;
                                      parseErrorMessage := message e |}]) w)
        as (Ht & Hitems & Herrs & Hw).
      simpl. rewrite Ht, Herrs, <- app_assoc. done.
    + destruct (parseRecord_parses record w Hf) as (item & Hv & Ht).
      rewrite Hv, Ht.
      destruct (IH (items ++ [item]) errs (world_of (parseRecord record w)))
        as (Ht' & (built & Hbuilt & Hlen) & Herrs & Hw).
      simpl. rewrite Ht', Herrs. split; [done|]. split; [|done].
      exists (item :: built). rewrite Hbuilt, <- app_assoc. simpl. by rewrite Hlen.
Qed.

(** The run of the outer [try] block, case by case. *)
Lemma handlerBody_run (batchWrite fallbackWrite : Writer) event w :
  let parsed := parseRecords (Records event) [] [] w in
  let items := (value_of parsed).1 in
  let errs := (value_of parsed).2 in
  let b := batchWrite items (world_of parsed) in
  handlerBody batchWrite fallbackWrite event w =
  if (length items =? 0)%nat then
    (inr {| statusCode := 400; responseBody := NoValidItems errs |}, world_of parsed, [])
  else
    match value_of b with
    | inl e => (inl e, world_of b, trace_of b)
    | inr batch =>
        let final fallback :=
          {| statusCode := 200;
             responseBody :=
               ProcessingComplete
                 {| totalProcessed := length items;
                    batchResults := batch;
                    fallbackResults := fallback;
                    parseErrors := if (0 <? length errs)%nat then Some errs else None |} |} in
        if (0 <? failed batch)%Z then
          let f := fallbackWrite (sliceFrom (- failed batch) items) (world_of b) in
          match value_of f with
          | inl e => (inl e, world_of f, trace_of b ++ trace_of f)
          | inr r => (inr (final (Some r)), world_of f, trace_of b ++ trace_of f)
          end
        else (inr (final None), world_of b, trace_of b)
    end.
Proof.
  cbv zeta. unfold handlerBody. rewrite run_bind.
  destruct (parseRecords_run (Records event) [] [] w) as (Ht & _).
  cbv zeta in Ht. rewrite Ht. simpl app.
  destruct (value_of (parseRecords (Records event) [] [] w)) as [items errs] eqn:Hp.
  simpl fst. simpl snd.
  destruct (length items =? 0)%nat; [by rewrite run_ret|].
  unfold bindE. rewrite run_bind.
  destruct (value_of (batchWrite items _)) as [e|batch] eqn:Hb.
  { rewrite run_ret, value_of_run, world_of_run, trace_of_run, app_nil_r. done. }
  rewrite run_bind.
  destruct (0 <? failed batch)%Z.
  - rewrite run_bind.
    destruct (value_of (fallbackWrite _ _)) as [e|r] eqn:Hf.
    + rewrite !run_ret, !value_of_run, !world_of_run, !trace_of_run, !app_nil_r. done.
    + rewrite !run_ret, !value_of_run, !world_of_run, !trace_of_run.
      rewrite !run_ret, !value_of_run, !world_of_run, !trace_of_run, !app_nil_r. done.
  - rewrite !run_ret, !value_of_run, !world_of_run, !trace_of_run.
    rewrite !run_ret, !value_of_run, !world_of_run, !trace_of_run, !app_nil_r. done.
Qed.

Lemma handlerWith_run (batchWrite fallbackWrite : Writer) event w :
  let body := handlerBody batchWrite fallbackWrite event w in
  handlerWith batchWrite fallbackWrite event w =
  (match value_of body with
   | inl e => {| statusCode := 500; responseBody := ProcessingFailed (message e) |}
   | inr response => response
   end, world_of body, trace_of body).
Proof.
  cbv zeta. unfold handlerWith, tryCatch. rewrite run_bind.
  destruct (value_of (handlerBody _ _ _ _)); by rewrite run_ret, value_of_run,
    world_of_run, trace_of_run, app_nil_r.
Qed.

Lemma returning_run {A B} (f : A → M B) a w :
  returning f a w = (inr (value_of (f a w)), world_of (f a w), trace_of (f a w)).
Proof.
  unfold returning. by rewrite run_bind, run_ret, value_of_run, world_of_run,
    trace_of_run, app_nil_r.
Qed.

Lemma sliceFrom_tail {A} (l : list A) (k : Z) :
  (0 < k)%Z → sliceFrom (- k) l = drop (length l - Z.to_nat k) l.
Proof.
  intros Hk. unfold sliceFrom, relativeIndex.
  rewrite (proj2 (Z.ltb_lt _ _)) by lia. f_equal. lia.
Qed.
End HandlerFacts.

Ltac run_simpl :=
  repeat progress
    (rewrite ?returning_run, ?value_of_run, ?world_of_run, ?trace_of_run;
     cbv beta iota).

Section HandlerTheorems.
Context `{Runtime}.

Lemma items_nonempty {A} (l : list A) : l ≠ [] → (length l =? 0)%nat = false.
Proof. destruct l; [done|]. intros _. done. Qed.

(** C4: in every invocation that builds at least one record, the response
    is the 200 summary with the Batch Writer's results; when these report
    [failed = K] with [K > 0], the Fallback Writer is run on
    [items.slice(-K)], the last [K] records of the built list (all of
    them if [K] exceeds their number), whichever records the store
    rejected: its puts follow the batch trace and its results are
    [fallbackResults]. When [failed = 0] no put is sent and
    [fallbackResults] is [null]. *)
Theorem fallback_selection (event : SQSEvent) (w : World) :
  let parsed := parseRecords (Records event) [] [] w in
  let items := (value_of parsed).1 in
  let batch := batchWriteToDynamoDB items (world_of parsed) in
  let K := failed (value_of batch) in
  let r := handler event w in
  items ≠ [] →
  (0 ≤ K)%Z
  ∧ ∃ final,
      value_of r = {| statusCode := 200; responseBody := ProcessingComplete final |}
      ∧ batchResults final = value_of batch
      ∧ if (0 <? K)%Z then
          let failedItems := drop (length items - Z.to_nat K) items in
          fallbackResults final
          = Some (value_of (fallbackIndividualWrite failedItems (world_of batch)))
          ∧ trace_of r
            = trace_of batch
                ++ ((λ item, EvSend (PutCommand DYNAMODB_TABLE item)) <$> failedItems)
          ∧ length failedItems = Nat.min (Z.to_nat K) (length items)
        else fallbackResults final = None ∧ trace_of r = trace_of batch.
Proof.
  intros parsed items batch K r Hne.
  assert (0 ≤ K)%Z as HK.
  { unfold K, batch, batchWriteToDynamoDB.
    destruct (batchLoop_appends items 0 {| successful := 0; failed := 0; errors := [] |}
                (world_of parsed)) as (later & _ & Hpos & -> & _). simpl. lia. }
  split; [done|].
  unfold r, handler. rewrite handlerWith_run. cbv zeta.
  rewrite handlerBody_run. cbv zeta. fold parsed. fold items.
  rewrite (items_nonempty items Hne).
  run_simpl. fold batch. fold K.
  destruct (0 <? K)%Z eqn:HposK.
  - apply Z.ltb_lt in HposK. run_simpl.
    rewrite (sliceFrom_tail items K HposK).
    eexists. split; [reflexivity|]. split; [done|]. split; [done|].
    rewrite (fallback_run_trace (drop (length items - Z.to_nat K) items) (world_of batch)).
    split; [done|]. rewrite length_drop. lia.
  - run_simpl. eexists. split; [reflexivity|]. done.
Qed.

(** C9: the handler's loop handles every message: the built records and
    the parse errors together are as many as the messages, the parse
    errors are those of the messages that fail, in order and with their
    [messageId], and the built records are as many as the messages that
    parse, so a failure on one message leaves the others processed.
    Messages whose body is all invalid JSON yield no record. In every
    invocation that yields no record, the handler returns status 400 with
    the parse errors, one per message, sends no command to the store and
    leaves the environment as it was. *)
Theorem no_valid_items (event : SQSEvent) (w : World) :
  let parsed := parseRecords (Records event) [] [] w in
  let items := (value_of parsed).1 in
  let errs := (value_of parsed).2 in
  length items + length errs = length (Records event)
  ∧ errs = omap parseErrorOf (Records event)
  ∧ length items = length (List.filter parses (Records event))
  ∧ (Forall (λ record, ∃ e, JSON_parse (body record) = inl e) (Records event) →
       items = [])
  ∧ (items = [] →
       handler event w
       = ({| statusCode := 400; responseBody := NoValidItems errs |}, w, [])
       ∧ length errs = length (Records event)).
Proof.
  intros parsed items errs.
  destruct (parseRecords_run (Records event) [] [] w)
    as (Ht & (built & Hbuilt & Hlen) & Herrs & Hw).
  fold parsed in Ht, Hbuilt, Herrs, Hw. fold items in Hbuilt. fold errs in Herrs.
  simpl in Hbuilt, Herrs. subst built.
  assert (length (omap parseErrorOf (Records event))
          + length (List.filter parses (Records event)) = length (Records event))
    as Hcount.
  { clear. induction (Records event) as [|record rest IH]; [done|].
    simpl. unfold parses at 1, parseErrorOf at 1.
    destruct (parseFailure record); simpl;
      change (list_omap SQSRecord ParseError parseErrorOf rest)
        with (omap parseErrorOf rest); lia. }
  split; [rewrite Herrs, Hlen; lia|]. split; [done|]. split; [done|]. split.
  - intros Hall. apply length_zero_iff_nil. rewrite Hlen.
    clear -Hall. induction Hall as [|record rest [e He] _ IH]; [done|].
    unfold parses, parseFailure in *. simpl. by rewrite He.
  - intros Hnone. rewrite Hnone in Hlen. simpl in Hlen.
    assert (List.filter parses (Records event) = []) as Hfilter
      by (by apply length_zero_iff_nil).
    split; [|rewrite Herrs; rewrite Hfilter in Hcount; simpl in Hcount; lia].
    unfold handler. rewrite handlerWith_run. cbv zeta.
    rewrite handlerBody_run. cbv zeta. fold parsed. fold items. fold errs.
    rewrite Hnone. simpl. run_simpl. by rewrite (Hw Hfilter).
Qed.

End HandlerTheorems.

(** ** Witnesses *)

(** C2, witness: five records and the store that returns the same two
    items every time. *)
Lemma retry_policy_witness :
  let r := batchWriteToDynamoDB (H := Witnesses.rejectingTwo) Witnesses.five 0 in
  delays (trace_of r) = [100; 200; 400]%Z
  ∧ value_of r
    = {| successful := 3; failed := 2; errors := ["2 items failed after retries"] |}.
Proof.
  destruct (retry_policy (H := Witnesses.rejectingTwo) Witnesses.five
              {| successful := 0; failed := 0; errors := [] |} 0 Witnesses.two
              eq_refl ltac:(discriminate))
    as (t & Htrace & _ & _ & Hrun & Hsame & Hsingle).
  destruct (Hsame (λ _ _, eq_refl)) as [Ht Hvalue]. cbv zeta.
  rewrite Hsingle by (simpl; unfold MAX_BATCH_SIZE; lia).
  split.
  - rewrite Hrun, trace_of_run, Htrace, Ht. reflexivity.
  - rewrite Hvalue. reflexivity.
Defined.

(** C5, witness: thirty records and the store whose first command throws:
    the first group of 25 fails as a whole and the second group of 5 is
    still written. *)
Lemma hard_failure_isolated_witness :
  let items := replicate 30 (Witnesses.record "A-1") in
  value_of (batchWriteToDynamoDB (H := Witnesses.throwingFirst) items 0)
  = {| successful := 5; failed := 25; errors := ["boom"] |}.
Proof.
  cbv zeta. unfold batchWriteToDynamoDB.
  rewrite (proj1 (hard_failure_isolated (H := Witnesses.throwingFirst)
                    (replicate 30 (Witnesses.record "A-1")) 0
                    {| successful := 0; failed := 0; errors := [] |} 0
                    (mkError "boom") ltac:(simpl; lia) eq_refl)).
  by vm_compute.
Defined.

(** C4, witness: one valid message and the store that keeps one item of the
    batch unprocessed: the fallback writes the last record. *)
Lemma fallback_selection_witness :
  let event := {| Records := [{| messageId := "m-1"; body := Witnesses.ticket |}] |} in
  let r := handler (H := Witnesses.keepingOne) event 0 in
  ∃ final,
    responseBody (value_of r) = ProcessingComplete final
    ∧ failed (batchResults final) = 1%Z
    ∧ fallbackResults final = Some {| successful := 1; failed := 0; errors := [] |}.
Proof.
  cbv zeta.
  destruct (fallback_selection (H := Witnesses.keepingOne)
              {| Records := [{| messageId := "m-1"; body := Witnesses.ticket |}] |} 0)
    as (_ & final & Hvalue & Hbatch & Hfallback).
  - intros Hnil. apply (f_equal length) in Hnil. vm_compute in Hnil. discriminate.
  - exists final. rewrite Hvalue. split; [done|]. rewrite Hbatch.
    split; [by vm_compute|].
    vm_compute (0 <? _)%Z in Hfallback. destruct Hfallback as (-> & _).
    by vm_compute.
Defined.

(** C9, witness: one message whose body is not JSON. *)
Lemma no_valid_items_witness :
  let event := {| Records := [{| messageId := "m-1"; body := "not json" |}] |} in
  handler (H := Examples.accepting) event 0
  = ({| statusCode := 400;
        responseBody :=
          NoValidItems [{| failedMessageId := "m-1";
                           parseErrorMessage := "Unexpected token in JSON" |}] |},
     0, []).
Proof.
  cbv zeta.
  destruct (no_valid_items (H := Examples.accepting)
              {| Records := [{| messageId := "m-1"; body := "not json" |}] |} 0)
    as (_ & _ & _ & Hjson & H400).
  apply H400, Hjson. repeat constructor. by eexists.
Defined.

(** ** The handler on an arbitrary event *)

Section RawFacts.
Context `{Runtime}.









(** *** The handler on an SQS event *)




End RawFacts.

(** C10, at the failing input: the event [{}] has no [Records]; whatever
    the environment, the handler rejects with the [TypeError] of line 203
    and nothing is sent to the store. *)
Lemma handler_rejects_without_Records `{Runtime} (w : World) :
  Raw.handler (VObject []) w = (inl (typeError VUndefined "length"), w, []).
Proof. reflexivity. Qed.

(** An event whose second record is [null]: the first record is built, the
    error raised in the inner [catch] is caught at the top level, and the
    answer has status 500; nothing is written. *)
Example handler_answers_500_on_null_record :
  Raw.handler (H := Witnesses.parsing)
    (VObject [("Records",
               VArray [recordValue {| messageId := "m-1"; body := Witnesses.ticket |};
                       VNull])]) 0
  = (inr {| Raw.statusCode := 500;
            Raw.responseBody := Raw.ProcessingFailed "Cannot read property messageId" |},
     0, []).
Proof. vm_compute. reflexivity. Qed.

(** The same event without the [null] record is answered with status 200
    after one batch command. *)
Example handler_answers_200_on_ticket :
  let r := Raw.handler (H := Witnesses.parsing)
             (VObject [("Records",
                        VArray [recordValue {| messageId := "m-1";
                                               body := Witnesses.ticket |}])]) 0 in
  ∃ response,
    value_of r = inr response ∧ Raw.statusCode response = 200%Z
    ∧ length (trace_of r) = 1.
Proof. vm_compute. eexists. repeat split. Qed.


(** * Further properties *)

(** ** Content Parser: which line wins, and the shape of keys and values *)

Section ParserMore.
Import JsString JsStringFacts.

Lemma parse_fold_app lines1 lines2 (fields : ParsedFields) :
  fold_left parseLine (lines1 ++ lines2) fields
  = fold_left parseLine lines2 (fold_left parseLine lines1 fields).
Proof. apply fold_left_app. Qed.

Lemma parse_fold_untouched lines (fields : ParsedFields) k :
  Forall (λ line, wellFormed line = true → slotOf (lineKey line) ≠ k) lines →
  fold_left parseLine lines fields !! k = fields !! k.
Proof.
  revert fields. induction lines as [|l rest IH]; intros fields Hall; [done|].
  apply Forall_cons in Hall as [Hl Hrest]. simpl. rewrite IH by done.
  rewrite parseLine_unfold. destruct (wellFormed l); [|done].
  case_decide; [done|]. rewrite lookup_insert_ne; [done|]. by apply Hl.
Qed.

Lemma parse_fold_source lines (fields : ParsedFields) k v :
  fold_left parseLine lines fields !! k = Some v →
  fields !! k = Some v
  ∨ ∃ line, line ∈ lines ∧ wellFormed line = true ∧ lineKey line ≠ "__proto__"
            ∧ k = slotOf (lineKey line) ∧ v = lineValue line.
Proof.
  revert fields. induction lines as [|l rest IH]; intros fields; simpl; [by left|].
  intros Hk. apply IH in Hk as [Hk|(line & Hin & Hrest)].
  - rewrite parseLine_unfold in Hk. destruct (wellFormed l) eqn:Hl; [|by left].
    case_decide as Hp; [by left|].
    rewrite lookup_insert in Hk. case_decide as Hslot; [|by left].
    injection Hk as <-. subst k. right. exists l. split; [left|done].
  - right. exists line. split; [by right|done].
Qed.

(** X1: Of the well-formed lines with the same normalised key the last one
    wins: a well-formed line whose key is not [__proto__] and is not
    repeated by a later well-formed line gives its slot its value. *)
Theorem parser_last_line_wins (content : string) (before after : list string)
    (line : string) :
  splitLines content = before ++ line :: after →
  wellFormed line = true →
  lineKey line ≠ "__proto__" →
  Forall (λ later, wellFormed later = true → lineKey later ≠ lineKey line) after →
  parseJiraContent content !! slotOf (lineKey line) = Some (lineValue line).
Proof.
  intros Hsplit Hwf Hproto Hafter. unfold parseJiraContent.
  rewrite Hsplit, parse_fold_app. simpl. rewrite parse_fold_untouched.
  - rewrite parseLine_unfold, Hwf, decide_False by done. apply lookup_insert_eq.
  - eapply Forall_impl; [exact Hafter|]. intros later Hlater Hw Heq.
    by apply Hlater, slotOf_lineKey_inj.
Qed.

Lemma parser_last_line_wins_witness :
  parseJiraContent ("Key: A" +:+ String LF ("Summary: s" +:+ String LF "KEY : B"))
    !! "issueKey" = Some "B".
Proof.
  apply (parser_last_line_wins
           ("Key: A" +:+ String LF ("Summary: s" +:+ String LF "KEY : B"))
           ["Key: A"; "Summary: s"] [] "KEY : B"); by vm_compute.
Defined.

(** X2: Every attribute the parser yields is normalised: its name is never
    [__proto__] and is either [issueKey] or a trimmed string without
    capital letters, and its value is trimmed. *)
Theorem parser_output_normalised (content : string) (k v : string) :
  parseJiraContent content !! k = Some v →
  k ≠ "__proto__"
  ∧ (k = "issueKey" ∨ (toLowerCase k = k ∧ trim k = k))
  ∧ trim v = v.
Proof.
  unfold parseJiraContent. intros Hk.
  apply parse_fold_source in Hk as [Hk|(line & _ & _ & Hproto & -> & ->)];
    [by rewrite lookup_empty in Hk|].
  unfold slotOf. case_decide as Hkey.
  - split; [done|]. split; [by left|]. apply trim_idem.
  - split; [done|]. split; [right|apply trim_idem].
    unfold lineKey. split; [apply toLowerCase_idem|].
    by rewrite trim_toLowerCase, trim_idem.
Qed.

Lemma parser_output_normalised_witness :
  parseJiraContent "  KEY :   TEST-4  " !! "issueKey" = Some "TEST-4"
  ∧ "issueKey" ≠ "__proto__"
  ∧ ("issueKey" = "issueKey" ∨ (toLowerCase "issueKey" = "issueKey"
                                ∧ trim "issueKey" = "issueKey"))
  ∧ trim "TEST-4" = "TEST-4".
Proof.
  split; [by vm_compute|].
  apply (parser_output_normalised "  KEY :   TEST-4  " "issueKey" "TEST-4").
  by vm_compute.
Defined.

(** X3: A content none of whose lines has its first colon after index 0 (the
    empty content, text without colons, lines that start with a colon)
    parses to the empty mapping. *)
Theorem parser_nothing_to_read (content : string) :
  Forall (λ line, (indexOf ":" line ≤ 0)%Z) (splitLines content) →
  parseJiraContent content = ∅.
Proof.
  intros Hall. unfold parseJiraContent. rewrite parse_fold_skip.
  replace (List.filter wellFormed (splitLines content)) with (@nil string); [done|].
  symmetry. induction Hall as [|line rest Hline _ IH]; [done|]. simpl.
  unfold wellFormed at 1. by rewrite (proj2 (Z.ltb_ge _ _) Hline).
Qed.

Lemma parser_nothing_to_read_witness :
  parseJiraContent ("no colon here" +:+ String LF ": leading colon") = ∅.
Proof. apply parser_nothing_to_read. repeat constructor; by vm_compute. Defined.

(** [lines.join('\n')] *)
Lemma splitLines_cons c r :
  splitLines (String c r) =
  if Ascii.eqb c LF then EmptyString :: splitLines r
  else match splitLines r with
       | h :: t => String c h :: t
       | [] => [String c EmptyString]
       end.
Proof. reflexivity. Qed.

(** [split] loses nothing: the lines of a content, joined by line feeds,
    are the content; there is always at least one line, and no line
    contains a line feed. *)
Theorem splitLines_join (content : string) :
  String.concat (String LF EmptyString) (splitLines content) = content
  ∧ 0 < length (splitLines content)
  ∧ Forall (λ line, indexOf LF line = (-1)%Z) (splitLines content).
Proof.
  induction content as [|c r (IHjoin & IHlen & IHlf)]; [by repeat constructor|].
  rewrite splitLines_cons. destruct (Ascii.eqb c LF) eqn:Hc.
  - apply Ascii.eqb_eq in Hc as ->. split; [|split].
    + destruct (splitLines r) as [|h t] eqn:Hr; [simpl in IHlen; lia|].
      change (String.concat (String LF "") ("" :: h :: t))
        with ("" +:+ String LF "" +:+ String.concat (String LF "") (h :: t)).
      by rewrite IHjoin.
    + simpl. lia.
    + by constructor.
  - destruct (splitLines r) as [|h t] eqn:Hr; [simpl in IHlen; lia|].
    apply Forall_cons in IHlf as [Hh Ht]. split; [|split].
    + rewrite <- IHjoin. destruct t; reflexivity.
    + simpl. lia.
    + constructor; [|done]. simpl. rewrite Hc, Hh. done.
Qed.
End ParserMore.

(** ** Record Builder: the fields of a record *)

Section BuilderMore.
Context `{Runtime}.

Lemma builderFields_lookup id ts title content (fields : ParsedFields) k :
  is_Some (builderFields id ts title content fields !! k) ↔ k ∈ builderKeys.
Proof.
  unfold builderFields. rewrite <- elem_of_dom, dom_list_to_map_L.
  rewrite elem_of_list_to_set. reflexivity.
Qed.

(** X4: A record has exactly the eleven properties the builder writes and the
    extension attributes: a name is a property of the record if and only if
    it is one of the eleven, or a parsed key outside the canonical six. *)
Theorem record_properties (msg : JSValue) (fields : ParsedFields) (w : World)
    (item : Item) (k : string) :
  value_of (createDynamoItem msg fields w) = inr item →
  is_Some (item !! k)
  ↔ k ∈ builderKeys ∨ (is_Some (fields !! k) ∧ k ∉ canonicalKeys).
Proof.
  intros (title & content & _ & _ & ->)%createDynamoItem_value.
  rewrite item_lookup. rewrite <- builderFields_lookup.
  destruct (decide (k ∈ canonicalKeys)) as [Hcan|Hext].
  - split; [by left|]. intros [?|[_ ?]]; done.
  - destruct (fields !! k) as [v|] eqn:Hk.
    + split; [intros _; right; by split|by eexists].
    + split; [by left|]. intros [?|[[? ?] _]]; done.
Qed.

(** X5: In a record built from the Content Parser's fields, [issueId] is a
    non-empty string, [lastUpdated] and [processedAt] are both the
    timestamp the builder read, and the five optional fields are the
    parsed ones or [undefined]. *)
Theorem record_identity (msg : JSValue) (text : string) (w : World) (item : Item) :
  value_of (createDynamoItem msg (parseJiraContent text) w) = inr item →
  let fields := parseJiraContent text in
  let stamp := VString (toISOString (now w).1) in
  (∃ id, item !! "issueId" = Some (VString id) ∧ id ≠ "")
  ∧ item !! "lastUpdated" = Some stamp
  ∧ item !! "processedAt" = Some stamp
  ∧ Forall (λ k, item !! k = Some (field fields k))
      ["summary"; "priority"; "creator"; "status"; "assignee"].
Proof.
  intros (title & content & _ & _ & ->)%createDynamoItem_value. cbv zeta.
  assert (∀ (base : Item) k, hasUpper k = true → k ≠ "issueKey" →
            (extensionAttributes (parseJiraContent text) ∪ base) !! k = base !! k)
    as Hcapital.
  { intros base k Hup Hne. rewrite item_lookup.
    destruct (decide (k ∈ canonicalKeys)); [done|]. by rewrite parser_no_capital. }
  assert (∀ (base : Item) k, k ∈ canonicalKeys →
            (extensionAttributes (parseJiraContent text) ∪ base) !! k = base !! k)
    as Hcanonical.
  { intros base k Hk. by rewrite item_lookup, decide_True. }
  split; [|split; [|split]].
  - rewrite Hcapital by done. eexists. split; [reflexivity|].
    rewrite issueIdOf_value. by destruct (parseJiraContent text !! "issueKey") as [[|c r]|].
  - by rewrite Hcapital.
  - by rewrite Hcapital.
  - repeat constructor; (rewrite Hcanonical; [reflexivity|compute_done]).
Qed.

(** X6: The builder sends nothing to the store and waits for nothing, and it
    fails only when the message is [null] or [undefined], with the
    [TypeError] of reading its [title]; for every other message it returns
    a record. *)
Theorem builder_failure (msg : JSValue) (fields : ParsedFields) (w : World) :
  trace_of (createDynamoItem msg fields w) = []
  ∧ (msg = VUndefined ∨ msg = VNull →
       value_of (createDynamoItem msg fields w) = inl (typeError msg "title"))
  ∧ (msg ≠ VUndefined → msg ≠ VNull →
       ∃ item, value_of (createDynamoItem msg fields w) = inr item).
Proof.
  split; [apply createDynamoItem_trace|]. split; [|apply createDynamoItem_returns].
  unfold createDynamoItem. rewrite !run_bind.
  intros [-> | ->]; simpl; by rewrite run_ret.
Qed.

End BuilderMore.

Lemma record_properties_witness :
  ∃ item : Item, is_Some (item !! "labels") ∧ is_Some (item !! "status").
Proof.
  pose (msg := VObject [("title", VString "Outage")]).
  pose (item := match value_of (createDynamoItem (H := Examples.accepting) msg
                                  (parseJiraContent "Labels: ops") 0) with
                | inr i => i
                | inl _ => ∅
                end).
  exists item. split.
  - apply (record_properties (H := Examples.accepting) msg
             (parseJiraContent "Labels: ops") 0 item "labels" eq_refl).
    right. split; [by exists "ops"|compute_done].
  - apply (record_properties (H := Examples.accepting) msg
             (parseJiraContent "Labels: ops") 0 item "status" eq_refl).
    left. compute_done.
Defined.

Lemma record_identity_witness :
  ∃ item : Item,
    item !! "lastUpdated" = Some (VString "2023-11-14T22:13:20.000Z")
    ∧ item !! "processedAt" = Some (VString "2023-11-14T22:13:20.000Z").
Proof.
  pose (msg := VObject [("title", VString "Outage")]).
  pose (item := match value_of (createDynamoItem (H := Examples.accepting) msg
                                  (parseJiraContent "lastUpdated: never") 0) with
                | inr i => i
                | inl _ => ∅
                end).
  exists item.
  destruct (record_identity (H := Examples.accepting) msg "lastUpdated: never" 0 item
              eq_refl) as (_ & Hl & Hp & _).
  by split.
Defined.

Lemma builder_failure_witness :
  value_of (createDynamoItem (H := Examples.accepting) VNull ∅ 0)
  = inl (mkError "Cannot read property title")
  ∧ ∃ item, value_of (createDynamoItem (H := Examples.accepting) (VObject []) ∅ 0)
            = inr item.
Proof.
  destruct (builder_failure (H := Examples.accepting) VNull ∅ 0) as (_ & Hnull & _).
  destruct (builder_failure (H := Examples.accepting) (VObject []) ∅ 0) as (_ & _ & Hobj).
  split; [apply Hnull; by right|apply Hobj; discriminate].
Defined.

(** ** Batch Writer: bounds and invariants of a run *)

Section BatchMore.
Context `{Runtime}.

(** An invariant kept by every group is kept by the loop, which runs
    [ceil((N - i) / 25)] groups from index [i]. *)
Lemma batchLoop_invariant (Inv : nat → Results → list Event → Prop) items :
  (∀ n chunk results w t,
     0 < length chunk ≤ MAX_BATCH_SIZE → Inv n results t →
     Inv (S n) (value_of (processChunk chunk results w))
       (t ++ trace_of (processChunk chunk results w))) →
  ∀ i n results w t,
    Inv n results t →
    Inv (n + ceilDiv (length items - i) MAX_BATCH_SIZE)
      (value_of (batchLoop items i results w))
      (t ++ trace_of (batchLoop items i results w)).
Proof.
  intros Hstep i. remember (length items - i) as m eqn:Hm. revert i Hm.
  induction m as [m IH] using lt_wf_ind. intros i Hm n results w t Hinv.
  rewrite batchLoop_step. destruct (decide (i < length items)) as [Hi|Hi].
  - cbv zeta. rewrite value_of_run, trace_of_run.
    set (chunk := take MAX_BATCH_SIZE (drop i items)).
    assert (0 < length chunk ≤ MAX_BATCH_SIZE) as Hchunk.
    { unfold chunk. rewrite length_take, length_drop. unfold MAX_BATCH_SIZE. lia. }
    pose proof (Hstep n chunk results w t Hchunk Hinv) as Hnext.
    subst m. rewrite (ceilDiv_step (length items - i)) by lia.
    replace (length items - i - MAX_BATCH_SIZE)
      with (length items - (i + MAX_BATCH_SIZE)) by lia.
    rewrite Nat.add_succ_r.
    change (S (n + ?x)) with (S n + x).
    rewrite app_assoc.
    apply (IH (length items - (i + MAX_BATCH_SIZE)));
      [unfold MAX_BATCH_SIZE; lia|done|done].
  - rewrite value_of_run, trace_of_run, app_nil_r.
    replace m with 0 by lia. unfold ceilDiv, MAX_BATCH_SIZE. simpl.
    by rewrite Nat.add_0_r.
Qed.

Lemma tryBlock_shape chunk w :
  ∃ l, trace_of (tryBlock chunk w)
       = EvSend (BatchWriteCommand DYNAMODB_TABLE (map PutRequest chunk)) :: retryEvents l
       ∧ length l ≤ MAX_RETRIES
       ∧ delays (retryEvents l) = (λ j, 2 ^ Z.of_nat j * 100)%Z <$> seq 0 (length l).
Proof.
  rewrite tryBlock_run. cbv zeta.
  destruct (send _ w) as [[unprocessed|e] w'].
  - pose proof (retryLoop_spec unprocessed 0 w') as Hspec.
    rewrite (run_eta (retryLoop _ _ _)) in Hspec.
    apply RetrySpec_shape in Hspec as (l & Hl & Hlen & Hdelays).
    exists l. rewrite trace_of_run, Hl. rewrite Hl in Hdelays.
    split; [done|]. split; [unfold MAX_RETRIES in *; lia|done].
  - exists []. rewrite trace_of_run. split; [done|]. split; [simpl; lia|done].
Qed.

Lemma delays_app t1 t2 : delays (t1 ++ t2) = delays t1 ++ delays t2.
Proof. apply omap_app. Qed.

Lemma sends_app t1 t2 : sends (t1 ++ t2) = sends t1 ++ sends t2.
Proof. apply omap_app. Qed.

Lemma totalDelay_app t1 t2 : totalDelay (t1 ++ t2) = (totalDelay t1 + totalDelay t2)%Z.
Proof.
  unfold totalDelay. rewrite delays_app.
  induction (delays t1) as [|d l IH]; simpl; [done|]. rewrite IH. lia.
Qed.

Lemma sends_retryEvents l : length (sends (retryEvents l)) = length l.
Proof. induction l as [|[ms c] l IH]; simpl; [done|]. by rewrite IH. Qed.

(** The trace of one group: at most four commands, and waits that are a
    prefix of 100, 200, 400. *)
Lemma processChunk_bounds chunk results w :
  let t := trace_of (processChunk chunk results w) in
  length (sends t) ≤ 4
  ∧ (0 ≤ totalDelay t ≤ 700)%Z
  ∧ Forall (λ ms, ms ∈ [100; 200; 400]%Z) (delays t).
Proof.
  cbv zeta. rewrite processChunk_run, trace_of_run.
  destruct (tryBlock_shape chunk w) as (l & -> & Hlen & Hdelays).
  unfold MAX_RETRIES in Hlen. unfold totalDelay.
  change (delays (EvSend ?c :: ?t)) with (delays t).
  change (sends (EvSend ?c :: ?t)) with (c :: sends t).
  simpl length. rewrite sends_retryEvents, Hdelays.
  split; [lia|].
  destruct l as [|? [|? [|? [|? l]]]]; simpl in *; try lia;
    (split; [lia|]); repeat constructor; set_solver.
Qed.

(** X7: Whatever the store does, a run over N records sends at most
    [4 * ceil(N/25)] commands (a submission and three retries per group)
    and waits at most [700 * ceil(N/25)] time units in all, each wait being
    100, 200 or 400; it records at most one error message per group, and
    [failed] is never negative. *)
Theorem batch_run_bounds (items : list Item) (w : World) :
  let r := batchWriteToDynamoDB items w in
  let groups := ceilDiv (length items) MAX_BATCH_SIZE in
  length (sends (trace_of r)) ≤ 4 * groups
  ∧ (0 ≤ totalDelay (trace_of r) ≤ 700 * Z.of_nat groups)%Z
  ∧ Forall (λ ms, ms ∈ [100; 200; 400]%Z) (delays (trace_of r))
  ∧ length (errors (value_of r)) ≤ groups
  ∧ (0 ≤ failed (value_of r))%Z.
Proof.
  cbv zeta. unfold batchWriteToDynamoDB.
  pose (Inv := λ (n : nat) (results : Results) (t : list Event),
          length (sends t) ≤ 4 * n
          ∧ (0 ≤ totalDelay t ≤ 700 * Z.of_nat n)%Z
          ∧ Forall (λ ms, ms ∈ [100; 200; 400]%Z) (delays t)
          ∧ length (errors results) ≤ n
          ∧ (0 ≤ failed results)%Z).
  pose proof (batchLoop_invariant Inv items) as Hloop.
  specialize (Hloop ltac:(
    intros n chunk results w0 t Hchunk (Hs & Hd & Hall & He & Hf);
    destruct (processChunk_bounds chunk results w0) as (Hs' & Hd' & Hall');
    unfold Inv; rewrite sends_app, totalDelay_app, delays_app, !length_app;
    rewrite Forall_app; rewrite processChunk_run, value_of_run;
    rewrite processChunk_run in Hs', Hd', Hall';
    (split; [lia|]); (split; [lia|]); (split; [done|]);
    destruct (value_of (tryBlock chunk w0)) as [e|u]; simpl;
      [rewrite length_app; simpl; lia|];
    destruct (0 <? length u); [rewrite length_app; simpl|]; lia)).
  specialize (Hloop 0 0 {| successful := 0; failed := 0; errors := [] |} w []).
  rewrite Nat.sub_0_r in Hloop. simpl app in Hloop. simpl Nat.add in Hloop.
  apply Hloop. unfold Inv, totalDelay. simpl.
  split; [lia|]. split; [lia|]. split; [constructor|]. split; lia.
Qed.

(** X8: The error list is empty exactly when nothing failed: every group that
    adds to [failed] records a message, and every message comes with a
    positive addition to [failed]. *)
Theorem batch_errors_iff_failed (items : list Item) (w : World) :
  let r := value_of (batchWriteToDynamoDB items w) in
  errors r = [] ↔ failed r = 0%Z.
Proof.
  cbv zeta. unfold batchWriteToDynamoDB.
  pose (Inv := λ (n : nat) (results : Results) (t : list Event),
          (0 ≤ failed results)%Z ∧ (errors results = [] ↔ failed results = 0%Z)).
  assert (∀ n chunk results w0 t,
            0 < length chunk ≤ MAX_BATCH_SIZE → Inv n results t →
            Inv (S n) (value_of (processChunk chunk results w0))
              (t ++ trace_of (processChunk chunk results w0))) as Hstep.
  { intros n chunk results w0 t Hchunk (Hf & Hiff).
    unfold Inv. rewrite processChunk_run, value_of_run.
    destruct (value_of (tryBlock chunk w0)) as [e|u]; simpl.
    - split; [lia|]. split; [by intros [_ ?]%app_eq_nil|intros; lia].
    - destruct (0 <? length u) eqn:Hu.
      + apply Nat.ltb_lt in Hu. split; [lia|].
        split; [by intros [_ ?]%app_eq_nil|intros; lia].
      + apply Nat.ltb_ge in Hu. split; [lia|]. rewrite Hiff. split; lia. }
  pose proof (batchLoop_invariant Inv items Hstep 0 0
                {| successful := 0; failed := 0; errors := [] |} w []) as Hloop.
  apply Hloop. unfold Inv. simpl. done.
Qed.
End BatchMore.

Section BatchStores.
Context `{Runtime}.

Lemma RetrySpec_shrinks attempt unprocessed w final w' t :
  returnsNoMoreThanSent →
  RetrySpec attempt unprocessed w (inr final, w', t) →
  length final ≤ length unprocessed.
Proof.
  intros Hstore Hspec. remember (inr final, w', t) as r eqn:Hr.
  revert final w' t Hr.
  induction Hspec as [attempt unprocessed w Hstop
                     |attempt unprocessed w returned w1 out1 w2 t1 Hne Hlt Hsend Hrest IH
                     |attempt unprocessed w e w1 Hne Hlt Hsend];
    intros final w' t Hr.
  - by injection Hr as <- _ _.
  - injection Hr as -> _ _. specialize (IH final w2 t1 eq_refl).
    pose proof (Hstore DYNAMODB_TABLE unprocessed
                  (sleep (2 ^ Z.of_nat attempt * 100)%Z w) returned) as Hle.
    rewrite Hsend in Hle. specialize (Hle eq_refl). lia.
  - discriminate.
Qed.

Lemma tryBlock_shrinks chunk w final :
  returnsNoMoreThanSent →
  value_of (tryBlock chunk w) = inr final → length final ≤ length chunk.
Proof.
  intros Hstore. rewrite tryBlock_run. cbv zeta.
  pose proof (Hstore DYNAMODB_TABLE (map PutRequest chunk) w) as Hfirst.
  destruct (send _ w) as [[unprocessed|e] w']; simpl in Hfirst; [|done].
  rewrite value_of_run. intros Hfinal.
  pose proof (retryLoop_spec unprocessed 0 w') as Hspec.
  rewrite (run_eta (retryLoop _ _ _)), Hfinal in Hspec.
  apply (RetrySpec_shrinks _ _ _ _ _ _ Hstore) in Hspec.
  specialize (Hfirst unprocessed eq_refl). rewrite length_map in Hfirst. lia.
Qed.

(** X9: With a store that never returns more unprocessed items than a request
    carried, both totals lie between 0 and the number of records. (Without
    that, [successful] can be negative: it is computed as the group's size
    minus the number of items last returned.) *)
Theorem batch_totals_in_range (items : list Item) (w : World) :
  returnsNoMoreThanSent →
  let r := value_of (batchWriteToDynamoDB items w) in
  (0 ≤ successful r ≤ Z.of_nat (length items))%Z
  ∧ (0 ≤ failed r ≤ Z.of_nat (length items))%Z.
Proof.
  intros Hstore. cbv zeta. unfold batchWriteToDynamoDB.
  pose (Inv := λ (n : nat) (results : Results) (t : list Event),
          (0 ≤ successful results)%Z ∧ (0 ≤ failed results)%Z).
  assert (∀ n chunk results w0 t,
            0 < length chunk ≤ MAX_BATCH_SIZE → Inv n results t →
            Inv (S n) (value_of (processChunk chunk results w0))
              (t ++ trace_of (processChunk chunk results w0))) as Hstep.
  { intros n chunk results w0 t Hchunk (Hs & Hf).
    unfold Inv. rewrite processChunk_run, value_of_run.
    destruct (value_of (tryBlock chunk w0)) as [e|u] eqn:Hu; simpl; [lia|].
    pose proof (tryBlock_shrinks chunk w0 u Hstore Hu). lia. }
  destruct (batchLoop_invariant Inv items Hstep 0 0
              {| successful := 0; failed := 0; errors := [] |} w [])
    as (Hs & Hf); [by unfold Inv|].
  destruct (batchLoop_groups items 0 {| successful := 0; failed := 0; errors := [] |} w)
    as (Hsum & _).
  rewrite Nat.sub_0_r in Hsum. simpl in Hsum. lia.
Qed.



End BatchStores.

Lemma batch_totals_in_range_witness :
  let r := value_of (batchWriteToDynamoDB (H := MoreExamples.keepingFirst) Witnesses.five 0) in
  (0 ≤ successful r ≤ 5)%Z ∧ (0 ≤ failed r ≤ 5)%Z.
Proof.
  apply (batch_totals_in_range (H := MoreExamples.keepingFirst) Witnesses.five 0).
  intros table requests w unprocessed [= <-]. rewrite length_take. lia.
Defined.


(** ** Fallback Writer: errors and totals *)

Section FallbackMore.
Context `{Runtime}.

Lemma failureEntries_length items outcomes :
  length outcomes = length items →
  length (omap (λ p : Item * SendResult, failureEntry p.1 p.2) (zip items outcomes))
  = length (List.filter isRejected outcomes).
Proof.
  revert outcomes. induction items as [|item rest IH]; intros [|o outcomes] Hlen;
    simpl in Hlen; try discriminate; [done|].
  injection Hlen as Hlen. specialize (IH outcomes Hlen).
  destruct o as [u|e]; simpl; [exact IH|]. f_equal. exact IH.
Qed.

Lemma putOutcomes_accepted items w :
  acceptsEverything → List.filter isRejected (putOutcomes items w) = [].
Proof.
  intros Hstore. revert w. induction items as [|item rest IH]; intros w; [done|].
  simpl. rewrite (Hstore (PutCommand DYNAMODB_TABLE item) w). simpl. apply IH.
Qed.

(** X11: The Fallback Writer records exactly one error entry per failed put, so
    the error list has [failed] entries; neither total is negative; and
    with a store that accepts everything every record is counted
    successful. *)
Theorem fallback_errors_match_failed (items : list Item) (w : World) :
  let r := value_of (fallbackIndividualWrite items w) in
  Z.of_nat (length (errors r)) = failed r
  ∧ (0 ≤ successful r)%Z
  ∧ (0 ≤ failed r)%Z
  ∧ (acceptsEverything →
       r = {| successful := Z.of_nat (length items); failed := 0; errors := [] |}).
Proof.
  cbv zeta. pose proof (putOutcomes_length items w) as Hlen.
  rewrite fallbackIndividualWrite_run, value_of_run.
  rewrite (proj1 (allSettled_run items w)).
  destruct (tally_fold items (putOutcomes items w)
              {| successful := 0; failed := 0; errors := [] |} Hlen)
    as (Hs & Hf & He).
  set (r := fold_left tally _ _) in *. simpl in Hs, Hf, He.
  assert (length (List.filter (λ o, negb (isRejected o)) (putOutcomes items w))
          + length (List.filter isRejected (putOutcomes items w)) = length items)
    as Hcount.
  { rewrite <- Hlen. clear. induction (putOutcomes items w) as [|[?|?] l IH]; simpl; lia. }
  split; [rewrite He, Hf, failureEntries_length by done; done|].
  split; [lia|]. split; [lia|].
  intros Hstore. pose proof (putOutcomes_accepted items w Hstore) as Hnone.
  rewrite Hnone in Hf, Hcount.
  assert (errors r = []) as Herr.
  { apply length_zero_iff_nil. rewrite He, failureEntries_length, Hnone by done. done. }
  destruct r as [s f es]. simpl in *. subst. f_equal; [lia|done].
Qed.
End FallbackMore.

Lemma fallback_errors_match_failed_witness :
  value_of (fallbackIndividualWrite (H := Examples.accepting) Witnesses.five 0)
  = {| successful := 5; failed := 0; errors := [] |}.
Proof.
  apply (fallback_errors_match_failed (H := Examples.accepting) Witnesses.five 0).
  by intros c w.
Defined.

(** ** Handler: the summary of an invocation *)

Section HandlerMore.
Context `{Runtime}.

Lemma parse_partition records :
  length (omap parseErrorOf records) + length (List.filter parses records)
  = length records.
Proof.
  induction records as [|record rest IH]; [done|].
  simpl. unfold parses at 1, parseErrorOf at 1.
  destruct (parseFailure record); simpl;
    change (list_omap SQSRecord ParseError parseErrorOf rest)
      with (omap parseErrorOf rest); lia.
Qed.

(** The built records and parse errors of an invocation. *)
Lemma parse_phase event w :
  let parsed := parseRecords (Records event) [] [] w in
  length (value_of parsed).1 = length (List.filter parses (Records event))
  ∧ (value_of parsed).2 = omap parseErrorOf (Records event).
Proof.
  cbv zeta.
  destruct (parseRecords_run (Records event) [] [] w)
    as (_ & (built & Hbuilt & Hlen) & Herrs & _).
  simpl in Hbuilt, Herrs. by rewrite Hbuilt, Herrs.
Qed.

(** X12: The handler answers 400 exactly when no message parses, and 200
    otherwise; in the 200 summary [totalProcessed] is the number of
    messages that parse, and [parseErrors] is left [undefined] when every
    message parses and is otherwise the list of the failed messages'
    errors, so that [totalProcessed] and the parse errors together account
    for every message. *)
Theorem handler_summary (event : SQSEvent) (w : World) :
  let n := length (List.filter parses (Records event)) in
  let failures := omap parseErrorOf (Records event) in
  let response := value_of (handler event w) in
  n + length failures = length (Records event)
  ∧ (n = 0 →
       response = {| statusCode := 400; responseBody := NoValidItems failures |})
  ∧ (0 < n →
       ∃ final,
         response = {| statusCode := 200; responseBody := ProcessingComplete final |}
         ∧ totalProcessed final = n
         ∧ parseErrors final
           = if decide (n = length (Records event)) then None else Some failures).
Proof.
  intros n failures response.
  pose proof (parse_partition (Records event)) as Hcount.
  destruct (parse_phase event w) as [Hitems Herrs]. cbv zeta in Hitems, Herrs.
  fold n in Hitems. fold failures in Herrs.
  split; [unfold n, failures; lia|].
  assert (∀ l : list ParseError,
            (if (0 <? length l)%nat then Some l else None)
            = if decide (length l = 0) then None else Some l) as Hopt.
  { intros [|? l]; done. }
  unfold response, handler. rewrite handlerWith_run, value_of_run, handlerBody_run.
  cbv zeta. rewrite Herrs.
  destruct (length (value_of (parseRecords (Records event) [] [] w)).1 =? 0)%nat eqn:Hzero.
  - apply Nat.eqb_eq in Hzero. rewrite value_of_run.
    split; [done|]. intros Hpos. lia.
  - apply Nat.eqb_neq in Hzero. split; [lia|]. intros Hpos.
    rewrite returning_run, value_of_run. cbv beta iota.
    destruct (0 <? _)%Z.
    + rewrite returning_run, !value_of_run. eexists. split; [reflexivity|]. simpl.
      split; [done|]. rewrite Hopt. fold failures n.
      destruct (decide (length failures = 0)), (decide (n = length (Records event)));
        (done || (unfold n, failures in *; lia)).
    + rewrite value_of_run. eexists. split; [reflexivity|]. simpl.
      split; [done|]. rewrite Hopt. fold failures n.
      destruct (decide (length failures = 0)), (decide (n = length (Records event)));
        (done || (unfold n, failures in *; lia)).
Qed.

End HandlerMore.

Lemma handler_summary_witness :
  let event :=
    {| Records := [{| messageId := "m-1"; body := Witnesses.ticket |};
                   {| messageId := "m-2"; body := "not json" |}] |} in
  ∃ final,
    value_of (handler (H := Witnesses.parsing) event 0)
    = {| statusCode := 200; responseBody := ProcessingComplete final |}
    ∧ totalProcessed final = 1
    ∧ parseErrors final
      = Some [{| failedMessageId := "m-2";
                 parseErrorMessage := "Unexpected token in JSON" |}].
Proof.
  intros event.
  destruct (handler_summary (H := Witnesses.parsing) event 0) as (_ & _ & Hsome).
  destruct Hsome as (final & Hvalue & Htotal & Herrs); [vm_compute; lia|].
  exists final. split; [exact Hvalue|]. split; [exact Htotal|exact Herrs].
Defined.


